(** * landscape-node: the deployment driver

    A shallow embedding of the command-line driver that runs a Landscape
    script on a group of servers and polls the resulting activity until it
    finishes.  Two revisions of the driver are embedded: the first one
    (deploy.js), which shells out to the Landscape API through docker, and
    the later one (landscape-deploy), which goes through the Landscape
    wrapper class and posts notifications to Slack.  The functions the two
    revisions share are embedded once.

    Conventions of the embedding.
    - A JavaScript string is a [string]: a sequence of code units in the
      range U+0000..U+00FF.
    - A finite JavaScript number is held by its value, an integer ([Z]):
      the identifiers of Landscape and the number of a script are integers.
      An integer below 2^53 in size is a number of the program as it
      stands, and its text is its decimal numeral (so it is for every
      integer below 10^21); [parseInt] rounds a longer numeral to the
      nearest double.  The numbers that are not told by an integer value
      (-0 and the two infinities, which [JSON.parse] can return, and NaN)
      are values of their own.
    - A field of a record read from the API is a primitive value ([prim]);
      a property that is absent reads as [PUndefined].
    - Every call that leaves the process (the Landscape API, Slack) is
      answered by a [World]; its answers to the report queries may change
      from one poll to the next.
    - A run is a list of events together with the way the run ended. *)

From Stdlib Require Import ZArith Ascii String List Lia Sorted Permutation.
From Stdlib Require Import DecimalString DecimalZ.
From stdpp Require Import base option gmap strings list.

Open Scope Z_scope.

(* ================================================================== *)
(** * Part I: the model                                                *)
(* ================================================================== *)

(** ** Primitive values *)

Inductive prim : Type :=
| PUndefined
| PNull
| PBool (b : bool)
| PNum (n : Z)                (* a finite number, by its value *)
| PStr (s : string)
| PNegZero                    (* -0: JSON.parse of the text -0 *)
| PInf (negative : bool)      (* Infinity, -Infinity: JSON.parse of 1e400 *)
| PNaN.

(** A number as [parseInt] returns it. *)
Inductive number : Type :=
| NaN
| Num (n : Z).

Definition dquote : ascii := "034"%char.
Definition backslash : ascii := "092"%char.
Definition newline : ascii := "010"%char.

(** Number::toString for an integer below 10^21 in size: a minus sign and
    the decimal digits. *)
Definition decimal (n : Z) : string := NilEmpty.string_of_int (Z.to_int n).

(** The abstract operation ToString, as a template literal and a property
    access apply it. *)
Definition ToString (v : prim) : string :=
  match v with
  | PUndefined => "undefined"
  | PNull => "null"
  | PBool true => "true"
  | PBool false => "false"
  | PNum n => decimal n
  | PStr s => s
  | PNegZero => "0"
  | PInf false => "Infinity"
  | PInf true => "-Infinity"
  | PNaN => "NaN"
  end.

(** ** String.prototype.toLowerCase on U+0000..U+00FF *)

Definition lower_char (c : ascii) : ascii :=
  let n := N_of_ascii c in
  if ((65 <=? n) && (n <=? 90))%N then ascii_of_N (n + 32)
  else if ((192 <=? n) && (n <=? 222) && negb (n =? 215))%N
       then ascii_of_N (n + 32)
  else c.

Fixpoint toLowerCase (s : string) : string :=
  match s with
  | EmptyString => EmptyString
  | String c s' => String (lower_char c) (toLowerCase s')
  end.

(** ** JSON.stringify *)

Definition hex_digit (n : N) : ascii :=
  match n with
  | 0 => "0" | 1 => "1" | 2 => "2" | 3 => "3" | 4 => "4" | 5 => "5"
  | 6 => "6" | 7 => "7" | 8 => "8" | 9 => "9" | 10 => "a" | 11 => "b"
  | 12 => "c" | 13 => "d" | 14 => "e" | _ => "f"
  end%N%char.

(** One code unit of QuoteJSONString. *)
Definition json_char (c : ascii) : string :=
  let n := N_of_ascii c in
  if (n =? 8)%N then String backslash "b"
  else if (n =? 9)%N then String backslash "t"
  else if (n =? 10)%N then String backslash "n"
  else if (n =? 12)%N then String backslash "f"
  else if (n =? 13)%N then String backslash "r"
  else if (n =? 34)%N then String backslash (String dquote EmptyString)
  else if (n =? 92)%N then String backslash (String backslash EmptyString)
  else if (n <? 32)%N then
    String backslash
      (String "u" (String "0" (String "0"
         (String (hex_digit (n / 16)) (String (hex_digit (n mod 16))
            EmptyString)))))
  else String c EmptyString.

Fixpoint json_escape (s : string) : string :=
  match s with
  | EmptyString => EmptyString
  | String c s' => json_char c +:+ json_escape s'
  end.

Definition QuoteJSONString (s : string) : string :=
  String dquote (json_escape s +:+ String dquote EmptyString).

(** A reader for one code unit written by [json_char].  It is used to show
    that the quotation can be read back in one way only. *)
Definition hex_value (c : ascii) : N :=
  (match c with
   | "0" => 0 | "1" => 1 | "2" => 2 | "3" => 3 | "4" => 4 | "5" => 5
   | "6" => 6 | "7" => 7 | "8" => 8 | "9" => 9 | "a" => 10 | "b" => 11
   | "c" => 12 | "d" => 13 | "e" => 14 | _ => 15
   end%char)%N.

Definition json_unchar (s : string) : option (ascii * string) :=
  match s with
  | EmptyString => None
  | String c r =>
    if Ascii.eqb c dquote then None
    else if Ascii.eqb c backslash then
      match r with
      | EmptyString => None
      | String "b" r' => Some ("008", r')
      | String "t" r' => Some ("009", r')
      | String "n" r' => Some ("010", r')
      | String "f" r' => Some ("012", r')
      | String "r" r' => Some ("013", r')
      | String "u" (String _ (String _ (String h (String l r')))) =>
        Some (ascii_of_N (16 * hex_value h + hex_value l), r')
      | String e r' => Some (e, r')
      end%char
    else Some (c, r)
  end.

(** The two characters that can follow a member inside an object or an
    element inside an array, and the characters a number is written with. *)
Definition is_delim (c : ascii) : bool :=
  (Ascii.eqb c "," || Ascii.eqb c "}" || Ascii.eqb c "]")%bool.

Definition is_num_char (c : ascii) : bool :=
  let n := N_of_ascii c in ((n =? 45) || ((48 <=? n) && (n <=? 57)))%N%bool.

Fixpoint all_chars (P : ascii -> bool) (s : string) : bool :=
  match s with
  | EmptyString => true
  | String c s' => (P c && all_chars P s')%bool
  end.

Definition head_is (P : ascii -> bool) (s : string) : bool :=
  match s with
  | EmptyString => false
  | String c _ => P c
  end.

(** SerializeJSONProperty on a primitive: [None] is JavaScript's
    [undefined], for which the property is left out of the object.  A
    number that is not finite is written as [null], and -0 as [0]. *)
Definition SerializeJSONProperty (v : prim) : option string :=
  match v with
  | PUndefined => None
  | PNull => Some "null"
  | PBool true => Some "true"
  | PBool false => Some "false"
  | PNum n => Some (decimal n)
  | PStr s => Some (QuoteJSONString s)
  | PNegZero => Some "0"
  | PInf _ => Some "null"
  | PNaN => Some "null"
  end.

(** A member of an object under serialisation: the key and the serialised
    value. *)
Definition json_member (m : string * string) : string :=
  QuoteJSONString m.1 +:+ String ":" m.2.

(** SerializeJSONObject over the own properties, in creation order. *)
Definition json_partial (props : list (string * prim)) : list (string * string) :=
  omap (fun kv => (fun s => (kv.1, s)) <$> SerializeJSONProperty kv.2) props.

Definition SerializeJSONObject (props : list (string * prim)) : string :=
  String "{" (String.concat "," (map json_member (json_partial props)) +:+ "}").

(** SerializeJSONArray, for an array whose elements serialise by [elem]. *)
Definition SerializeJSONArray {A} (elem : A -> string) (l : list A) : string :=
  String "[" (String.concat "," (map elem l) +:+ "]").

(** ** Data read from the Landscape API *)

(** A computer of an activity group. *)
Record server : Type := Server {
  server_id : prim;
  hostname : prim;
}.

(** An activity: the parent (the script run) or a child (the run on one
    computer). *)
Record activity : Type := Activity {
  act_id : prim;
  act_computer_id : prim;
  act_activity_status : prim;
}.

(** ** The activity report *)

Record record : Type := Record_ {
  computer_name : prim;
  computer_id : prim;
  activity_id : prim;
  activity_status : prim;
}.

Abbreviation report := (list record).

(** The key used to identify the summary record. *)
Definition gSummaryRecord : string := "** ALL (Summary) **".

Definition record_props (r : record) : list (string * prim) :=
  [ ("computer_name", computer_name r);
    ("computer_id", computer_id r);
    ("activity_id", activity_id r);
    ("activity_status", activity_status r) ].

(** JSON.stringify of the value held by [oldActivityReport] or
    [newActivityReport]: [null] or an array of records. *)
Definition JSON_stringify (v : option report) : string :=
  match v with
  | None => "null"
  | Some l => SerializeJSONArray (fun r => SerializeJSONObject (record_props r)) l
  end.

(** Compares two JSON objects for equality by comparing their string
    representations. *)
Definition isEqual (report1 report2 : option report) : bool :=
  String.eqb (JSON_stringify report1) (JSON_stringify report2).

(** ** Runs: events, outcomes and the monad of the driver *)

Inductive exn : Type :=
| TypeError     (* a property of undefined is read, or a non-function called *)
| CallFailed.   (* execSync or a call of the Landscape wrapper throws *)

Inductive result (A : Type) : Type :=
| Ok (a : A)
| Throw (e : exn).
Arguments Ok {A} a.
Arguments Throw {A} e.

(** The Landscape instance the calls go to: TST/PRD, or DEV/PLY under
    [--dev]. *)
Inductive instance : Type := TST | DEV.

Inductive level : Type := Info | Error.

Inductive event : Type :=
| Log (l : level) (msg : string)              (* gLog.info, gLog.error *)
| Help                                        (* the text of program.help() *)
| PrintTable (r : report)                     (* nodePrint.pt *)
| Sleep (seconds : Z)                         (* execSync('sleep 15') *)
| GetComputers (i : instance) (tag : string)
| ExecuteScript (i : instance) (tag : string) (script : number)
| GetChildActivities (i : instance) (parent : prim)
| GetActivities (i : instance) (id : prim)
| Slack (text : string).

(** The calls that leave the machine. *)
Definition is_remote (e : event) : bool :=
  match e with
  | GetComputers _ _ | ExecuteScript _ _ _ | GetChildActivities _ _
  | GetActivities _ _ | Slack _ => true
  | _ => false
  end.

(** How a run ends: the function returns, the process exits, an exception
    escapes, or the run is still going when the fuel of the model is spent. *)
Inductive outcome (A : Type) : Type :=
| Ret (a : A)
| Exit (code : Z)
| Thrown (e : exn)
| Running.
Arguments Ret {A} a.
Arguments Exit {A} code.
Arguments Thrown {A} e.
Arguments Running {A}.

Definition M (A : Type) : Type := (list event * outcome A)%type.

Definition ret {A} (a : A) : M A := ([], Ret a).

Definition bind {A B} (m : M A) (f : A -> M B) : M B :=
  match m.2 with
  | Ret a => let r := f a in (m.1 ++ r.1, r.2)
  | Exit c => (m.1, Exit c)
  | Thrown e => (m.1, Thrown e)
  | Running => (m.1, Running)
  end.

Definition emit (e : event) : M unit := ([e], Ret tt).
Definition exit {A} (code : Z) : M A := ([], Exit code).
Definition running {A} : M A := ([], Running).

Definition lift {A} (r : result A) : M A :=
  match r with
  | Ok a => ([], Ret a)
  | Throw e => ([], Thrown e)
  end.

Declare Scope run_scope.
Delimit Scope run_scope with run.
Notation "x <- m ;; k" := (bind m (fun x => k))
  (at level 100, m at next level, k at level 200, right associativity)
  : run_scope.
Notation "m ;; k" := (bind m (fun _ => k))
  (at level 100, k at level 200, right associativity) : run_scope.

Definition rbind {A B} (r : result A) (f : A -> result B) : result B :=
  match r with
  | Ok a => f a
  | Throw e => Throw e
  end.

(** Array.prototype.forEach with a callback that builds one element and may
    throw. *)
Fixpoint forEach {A B} (f : A -> result B) (l : list A) : result (list B) :=
  match l with
  | [] => Ok []
  | a :: l' => rbind (f a) (fun b => rbind (forEach f l') (fun bs => Ok (b :: bs)))
  end.

(** ** The outside world *)

(** The answers of the Landscape API and of Slack.  The two report queries
    are answered anew at every poll; the number of the poll is their first
    argument. *)
Record World : Type := {
  getComputers : instance -> string -> result (list server);
  executeScript : instance -> string -> number -> result activity;
  getChildActivities : nat -> instance -> prim -> result (list activity);
  getActivities : nat -> instance -> prim -> result (list activity);
  postSlack : string -> result unit;
}.

(** ** generateDetailedActivityReport *)

(** [gServers]: an object keyed on computer id, by its own properties.  A
    key is the ToString of the id. *)
Abbreviation servers := (gmap string server).

(** The names of the properties an object made by [{}] inherits from
    Object.prototype.  None of their values has a [hostname]. *)
Definition Object_prototype : list string :=
  [ "constructor"; "__defineGetter__"; "__defineSetter__"; "hasOwnProperty";
    "__lookupGetter__"; "__lookupSetter__"; "isPrototypeOf";
    "propertyIsEnumerable"; "toString"; "valueOf"; "__proto__";
    "toLocaleString" ].

Definition inherited (key : string) : bool :=
  existsb (String.eqb key) Object_prototype.

(** The body of the forEach callback.
    [gServers[childActivity.computer_id].hostname] is the hostname of the
    computer when the key is a property of [gServers] itself, [undefined]
    when the key names an inherited property, and throws when the key
    names no property at all.  (A computer whose id is the string
    [__proto__] is not stored under a key by [getServers]: the assignment
    makes it the prototype of [gServers].  Reading that key then gives the
    computer back, as here, but the properties of the computer join the
    inherited ones; the statements below that depend on the inherited
    properties ask for a [gServers] without that key.) *)
Definition child_record (gServers : servers) (childActivity : activity)
  : result record :=
  let key := ToString (act_computer_id childActivity) in
  match gServers !! key with
  | Some srv =>
    Ok {| computer_name := hostname srv;
          computer_id := act_computer_id childActivity;
          activity_id := act_id childActivity;
          activity_status := act_activity_status childActivity |}
  | None =>
    if inherited key then
      Ok {| computer_name := PUndefined;
            computer_id := act_computer_id childActivity;
            activity_id := act_id childActivity;
            activity_status := act_activity_status childActivity |}
    else Throw TypeError
  end.

(** [r.computer_name.toLowerCase()]: a TypeError unless the name is a
    string. *)
Definition lower_name (r : record) : result string :=
  match computer_name r with
  | PStr s => Ok (toLowerCase s)
  | _ => Throw TypeError
  end.

(** The comparator handed to sort:
    [(a.name.toLowerCase() > b.name.toLowerCase()) -
     (a.name.toLowerCase() < b.name.toLowerCase())]. *)
Definition compare_records (a b : record) : result Z :=
  rbind (lower_name a) (fun la =>
  rbind (lower_name b) (fun lb =>
  Ok (Z.b2z (String.ltb lb la) - Z.b2z (String.ltb la lb)))).

(** Array.prototype.sort with a comparator: a stable sort (ECMAScript 2019),
    here by insertion.  An element goes before the first element it does
    not compare greater than.  An array of fewer than two elements is
    returned without a call of the comparator. *)
Fixpoint sort_insert {A} (cmp : A -> A -> result Z) (x : A) (l : list A)
  : result (list A) :=
  match l with
  | [] => Ok [x]
  | y :: l' =>
    rbind (cmp x y) (fun c =>
    if c <=? 0 then Ok (x :: y :: l')
    else rbind (sort_insert cmp x l') (fun l'' => Ok (y :: l'')))
  end.

Fixpoint sort {A} (cmp : A -> A -> result Z) (l : list A) : result (list A) :=
  match l with
  | [] => Ok []
  | x :: l' => rbind (sort cmp l') (sort_insert cmp x)
  end.

(** [JSON.parse(...)[0]], [parentActivity[0]]: the first element, and a
    TypeError on the first property read when there is none. *)
Definition first_activity (l : list activity) : result activity :=
  match l with
  | [] => Throw TypeError
  | a :: _ => Ok a
  end.

Definition summary_record (parentActivity : activity) : record :=
  {| computer_name := PStr gSummaryRecord;
     computer_id := PStr "-";
     activity_id := act_id parentActivity;
     activity_status := act_activity_status parentActivity |}.

Open Scope run_scope.

(** Generates an activity report for the parent activity that includes the
    status of the child activities as well.  [tick] numbers the poll. *)
Definition generateDetailedActivityReport (w : World) (i : instance)
    (gServers : servers) (tick : nat) (parentActivityId : prim) : M report :=
  emit (GetChildActivities i parentActivityId) ;;
  childActivities <- lift (getChildActivities w tick i parentActivityId) ;;
  report <- lift (forEach (child_record gServers) childActivities) ;;
  report <- lift (sort compare_records report) ;;
  emit (GetActivities i parentActivityId) ;;
  parentActivity <- lift (getActivities w tick i parentActivityId) ;;
  parentActivity <- lift (first_activity parentActivity) ;;
  ret (report ++ [summary_record parentActivity]).

(** Gets the set of servers that are a part of the activity group: an
    object keyed on computer id, a later computer replacing an earlier one
    of the same id. *)
Definition getServers (w : World) (i : instance) (activityGroup : string)
  : M servers :=
  emit (GetComputers i activityGroup) ;;
  tmpServers <- lift (getComputers w i activityGroup) ;;
  ret (fold_left (fun (m : servers) srv => <[ToString (server_id srv) := srv]> m)
                 tmpServers ∅).

(** ** convertDetailedActivityReportToText *)

Definition report_line (r : record) : string :=
  ToString (computer_name r) +:+ ": " +:+ ToString (activity_status r)
  +:+ String newline EmptyString.

(** The for loop, [report += ...] at every index. *)
Definition convertDetailedActivityReportToText (activityReport : report)
  : string :=
  fold_left (fun report r => report +:+ report_line r) activityReport EmptyString.

(** ** parseInt *)

(** StrWhiteSpaceChar, in U+0000..U+00FF. *)
Definition is_white (c : ascii) : bool :=
  let n := N_of_ascii c in
  (((9 <=? n) && (n <=? 13)) || (n =? 32) || (n =? 160))%N%bool.

Fixpoint trim_start (s : string) : string :=
  match s with
  | String c s' => if is_white c then trim_start s' else s
  | EmptyString => s
  end.

Definition digit_value (c : ascii) : option Z :=
  let n := Z.of_N (N_of_ascii c) in
  if (48 <=? n) && (n <=? 57) then Some (n - 48)
  else if (97 <=? n) && (n <=? 122) then Some (n - 87)
  else if (65 <=? n) && (n <=? 90) then Some (n - 55)
  else None.

(** The value of the longest prefix made of digits of radix [R]; [acc] is
    the value read so far, [None] before the first digit. *)
Fixpoint parse_digits (R : Z) (s : string) (acc : option Z) : option Z :=
  match s with
  | EmptyString => acc
  | String c s' =>
    match digit_value c with
    | Some d =>
      if d <? R then parse_digits R s' (Some (default 0 acc * R + d)) else acc
    | None => acc
    end
  end.

(** The Number value for an integer: the integer itself when it is below
    2^53 in size, else the nearest integer with 53 significant bits, the
    one with an even last bit when two are as near.  (From 2^1024 - 2^970
    on the code has Infinity, which like the value kept here is a number
    other than 0.) *)
Definition double_of_Z (z : Z) : Z :=
  let m := Z.abs z in
  if m <? 2 ^ 53 then z
  else
    let e := Z.log2 m - 52 in
    let q := m / 2 ^ e in
    let r := m mod 2 ^ e in
    let half := 2 ^ (e - 1) in
    let q' := if r <? half then q
              else if half <? r then q + 1
              else if Z.even q then q else q + 1 in
    Z.sgn z * (q' * 2 ^ e).

(** [parseInt(string, undefined)], the way commander calls the coercion of
    an option given once: leading white space is dropped, a sign is read,
    the radix is 16 after a [0x] or [0X] prefix and 10 otherwise, and the
    value of the digits is rounded to a number. *)
Definition parseInt (s : string) : number :=
  let s := trim_start s in
  let '(sign, s) :=
    match s with
    | String "-" s' => (-1, s')
    | String "+" s' => (1, s')
    | _ => (1, s)
    end in
  let '(R, s) :=
    match s with
    | String "0" (String "x" s') => (16, s')
    | String "0" (String "X" s') => (16, s')
    | _ => (10, s)
    end in
  match parse_digits R s None with
  | None => NaN
  | Some n => Num (sign * double_of_Z n)
  end.

Definition number_ToString (n : number) : string :=
  match n with
  | NaN => "NaN"
  | Num n => decimal n
  end.

(** ** processCommandLineArgs *)

(** What commander has read from [process.argv] when [parse] returns: for
    each option whether it was given, and the raw value of the two options
    that take one, each given once at most.  (commander is a dependency; a
    command line it refuses, or answers itself, ends in [parse] and is not
    an input here, and an option given twice has its second value coerced
    with the first as radix, which is not an input here either.) *)
Record argv : Type := {
  arg_dev : bool;
  arg_script : option string;
  arg_tag : option string;
}.

(** [program.script]: undefined unless the option was given, else its value
    coerced by [parseInt]. *)
Definition program_script (a : argv) : option number := parseInt <$> arg_script a.

Definition program_tag (a : argv) : option string := arg_tag a.

(** [!program.script], [!program.tag]. *)
Definition not_script (v : option number) : bool :=
  match v with
  | None => true
  | Some NaN => true
  | Some (Num n) => n =? 0
  end.

Definition not_tag (v : option string) : bool :=
  match v with
  | None => true
  | Some t => String.eqb t EmptyString
  end.

(** [program.help()] of commander 2.x, the version package.json asks for:
    it writes the help text and calls [process.exit()] without a code, which
    ends the process with status 0. *)
Definition help_exit_code : Z := 0.

Definition program_help {A} : M A := emit Help ;; exit help_exit_code.

(** The globals [processCommandLineArgs] sets. *)
Record globals : Type := {
  gLandscapeActivityGroup : string;
  gLandscapeScript : number;
  gLandscapeCmd : instance;
}.

Definition running_message (filename : string) (g : globals) : string :=
  "Running '" +:+ filename +:+ " --tag " +:+ gLandscapeActivityGroup g
  +:+ " --script " +:+ number_ToString (gLandscapeScript g)
  +:+ "' on Landscape "
  +:+ match gLandscapeCmd g with TST => "TST" | DEV => "DEV" end.

(** Processes the command line arguments with which the script was called.
    [filename] is [__filename].  An option that was not given is undefined,
    which is falsy. *)
Definition processCommandLineArgs (filename : string) (a : argv) : M globals :=
  match program_script a, program_tag a with
  | Some script, Some tag =>
    if not_script (Some script) || not_tag (Some tag) then program_help
    else
      let g := {| gLandscapeActivityGroup := tag;
                  gLandscapeScript := script;
                  gLandscapeCmd := if negb (arg_dev a) then TST else DEV |} in
      emit (Log Info (running_message filename g)) ;;
      ret g
  | _, _ => program_help
  end.

(** ** The polling loop *)

(** [activity_status === s] *)
Definition status_is (v : prim) (s : string) : bool :=
  match v with
  | PStr t => String.eqb t s
  | _ => false
  end.

(** [newActivityReport[newActivityReport.length - 1].activity_status] *)
Definition summary_status (newActivityReport : report) : result prim :=
  match last newActivityReport with
  | Some r => Ok (activity_status r)
  | None => Throw TypeError
  end.

(** The condition of the do-while. *)
Definition continue (status : prim) : bool :=
  negb (status_is status "canceled") && negb (status_is status "failed")
  && negb (status_is status "succeeded").

(** One pass through the body of the do-while: the new report. *)
Definition poll_body (w : World) (i : instance) (gServers : servers)
    (parentId : prim) (tick : nat) (oldActivityReport : option report)
  : M report :=
  emit (Sleep 15) ;;
  newActivityReport <- generateDetailedActivityReport w i gServers tick parentId ;;
  (if negb (isEqual oldActivityReport (Some newActivityReport)) then
     emit (Log Info "The deployment's current status is:") ;;
     emit (PrintTable newActivityReport)
   else ret tt) ;;
  emit (Log Info "Deploying the software...") ;;
  ret newActivityReport.

(** The do-while.  The body runs, then the condition is read; [fuel] bounds
    the number of further passes, and [oldActivityReport] is the report of
    the pass before ([None] for [null]). *)
Fixpoint poll (w : World) (i : instance) (gServers : servers) (parentId : prim)
    (fuel tick : nat) (oldActivityReport : option report) : M report :=
  newActivityReport <- poll_body w i gServers parentId tick oldActivityReport ;;
  status <- lift (summary_status newActivityReport) ;;
  if continue status then
    match fuel with
    | O => running
    | S fuel' =>
      poll w i gServers parentId fuel' (S tick) (Some newActivityReport)
    end
  else ret newActivityReport.

(** ** main *)

Definition completion_message (status : prim) : string :=
  "Deployment completed with status '" +:+ ToString status +:+ "'.".

(** The last statement of [main]: info for succeeded and canceled, error
    otherwise. *)
Definition log_completion (newActivityReport : report) : M unit :=
  status <- lift (summary_status newActivityReport) ;;
  if status_is status "succeeded" || status_is status "canceled"
  then emit (Log Info (completion_message status))
  else emit (Log Error (completion_message status)).

Definition getting_message (g : globals) : string :=
  "Getting servers associated with the Landscape activity group '"
  +:+ gLandscapeActivityGroup g +:+ "'.".

Definition executing_message (g : globals) : string :=
  "Executing Landscpate script '" +:+ number_ToString (gLandscapeScript g)
  +:+ "' for '" +:+ gLandscapeActivityGroup g +:+ "'.".

(** The first revision (deploy.js). *)
Module Deploy.

Definition main (w : World) (filename : string) (a : argv) (fuel : nat)
  : M unit :=
  g <- processCommandLineArgs filename a ;;
  emit (Log Info (getting_message g)) ;;
  gServers <- getServers w (gLandscapeCmd g) (gLandscapeActivityGroup g) ;;
  emit (Log Info (executing_message g)) ;;
  emit (ExecuteScript (gLandscapeCmd g) (gLandscapeActivityGroup g)
                      (gLandscapeScript g)) ;;
  parentActivity <- lift (executeScript w (gLandscapeCmd g)
                            (gLandscapeActivityGroup g) (gLandscapeScript g)) ;;
  newActivityReport <-
    poll w (gLandscapeCmd g) gServers (act_id parentActivity) fuel 0 None ;;
  log_completion newActivityReport.

End Deploy.

(** The later revision (landscape-deploy), with the Slack notifications. *)
Module LandscapeDeploy.

(** Posts a notification to Slack: [execSync] of curl. *)
Definition postSlackNotification (w : World) (text : string) : M unit :=
  emit (Slack text) ;;
  lift (postSlack w text).

Definition deploying_text (g : globals) : string :=
  "I am deploying software using Landscape script '"
  +:+ number_ToString (gLandscapeScript g)
  +:+ "' for the group of servers called '" +:+ gLandscapeActivityGroup g
  +:+ "'...".

Definition finished_text (g : globals) : string :=
  "I have finished deploying software using Landscape script '"
  +:+ number_ToString (gLandscapeScript g)
  +:+ "' for the group of servers called '" +:+ gLandscapeActivityGroup g
  +:+ "'.  Here are the details for each server:".

Definition main (w : World) (filename : string) (a : argv) (fuel : nat)
  : M unit :=
  g <- processCommandLineArgs filename a ;;
  emit (Log Info (getting_message g)) ;;
  gServers <- getServers w (gLandscapeCmd g) (gLandscapeActivityGroup g) ;;
  emit (Log Info (executing_message g)) ;;
  postSlackNotification w (deploying_text g) ;;
  emit (ExecuteScript (gLandscapeCmd g) (gLandscapeActivityGroup g)
                      (gLandscapeScript g)) ;;
  parentActivity <- lift (executeScript w (gLandscapeCmd g)
                            (gLandscapeActivityGroup g) (gLandscapeScript g)) ;;
  newActivityReport <-
    poll w (gLandscapeCmd g) gServers (act_id parentActivity) fuel 0 None ;;
  postSlackNotification w (finished_text g) ;;
  postSlackNotification w (convertDetailedActivityReportToText newActivityReport) ;;
  log_completion newActivityReport.

End LandscapeDeploy.

Close Scope run_scope.

(** ** The vocabulary of the statements *)

(** A member whose second component is the serialisation of a value. *)
Definition member_ok (m : string * string) : Prop :=
  exists v, SerializeJSONProperty v = Some m.2.

(** What follows the first element of a comma-separated sequence: the
    text after the sequence, or a comma and the rest of the sequence. *)
Definition join_tail {A} (enc : A -> string) (l : list A) (r : string)
  : string :=
  match l with
  | [] => r
  | _ :: _ => String "," (String.concat "," (map enc l) +:+ r)
  end.

(** Two records with the same value in every field. *)
Definition same_fields (a b : record) : Prop :=
  computer_name a = computer_name b /\ computer_id a = computer_id b
  /\ activity_id a = activity_id b /\ activity_status a = activity_status b.

(** The value [JSON.parse] reads back from what [JSON.stringify] writes for
    a value: the value itself, except that a number that is not finite
    comes back as [null] and -0 as 0. *)
Definition json_value (v : prim) : prim :=
  match v with
  | PNegZero => PNum 0
  | PInf _ | PNaN => PNull
  | _ => v
  end.

Definition json_record (r : record) : record :=
  {| computer_name := json_value (computer_name r);
     computer_id := json_value (computer_id r);
     activity_id := json_value (activity_id r);
     activity_status := json_value (activity_status r) |}.

Definition json_report (v : option report) : option report :=
  map json_record <$> v.

(** The two records have, field by field, values that JSON writes in the
    same way. *)
Definition same_json (a b : record) : Prop := json_record a = json_record b.

(** A value, a record, that JSON writes as it is: no number other than a
    finite one, and no -0. *)
Definition plain (v : prim) : Prop := json_value v = v.

Definition plain_record (r : record) : Prop :=
  plain (computer_name r) /\ plain (computer_id r)
  /\ plain (activity_id r) /\ plain (activity_status r).

(** The texts a value is serialised to. *)
Inductive json_text : string -> Prop :=
| text_null : json_text "null"
| text_true : json_text "true"
| text_false : json_text "false"
| text_number n : json_text (decimal n)
| text_string s : json_text (QuoteJSONString s).

(** [a] is not after [b] in the order of the comparator: both names are
    strings and the first, in lower case, is at most the second. *)
Definition name_le (a b : record) : Prop :=
  exists la lb, lower_name a = Ok la /\ lower_name b = Ok lb
                /\ String.leb la lb = true.

(** The record's name in lower case is [k]. *)
Definition same_key (k : string) (r : record) : bool :=
  match lower_name r with
  | Ok l => String.eqb l k
  | Throw _ => false
  end.

(** [s] is [l] sorted: a permutation of [l] in the order of the
    comparator, the records of one key keeping the order they have in [l]. *)
Record sorted_from (l s : list record) : Prop := {
  sorted_perm : Permutation l s;
  sorted_order : StronglySorted name_le s;
  sorted_stable :
    forall k, List.filter (same_key k) s = List.filter (same_key k) l;
}.

(** The three statuses that end the polling. *)
Definition terminal (status : prim) : bool :=
  status_is status "succeeded" || status_is status "failed"
  || status_is status "canceled".

(** The event is the final message of a run. *)
Definition is_completion (e : event) : bool :=
  match e with
  | Log _ msg => String.prefix "Deployment completed with status '" msg
  | _ => false
  end.

Definition count_events (P : event -> bool) (t : list event) : nat :=
  length (List.filter P t).

Definition is_sleep (e : event) : bool :=
  match e with
  | Sleep _ => true
  | _ => false
  end.

(** ** A deployment, for the examples *)

(** Three computers tagged ply-servers; the script run is activity 100; at
    the first poll the children are queued, in progress and failed and the
    parent is in progress, from the second poll on the parent is
    succeeded. *)
Definition demo_servers : list server :=
  [ Server (PNum 1) (PStr "b-host");
    Server (PNum 2) (PStr "A-host");
    Server (PNum 3) (PStr "c-host") ].

Definition demo_children (tick : nat) : list activity :=
  match tick with
  | O => [ Activity (PNum 101) (PNum 1) (PStr "queued");
           Activity (PNum 102) (PNum 2) (PStr "in-progress");
           Activity (PNum 103) (PNum 3) (PStr "failed") ]
  | S _ => [ Activity (PNum 101) (PNum 1) (PStr "succeeded");
             Activity (PNum 102) (PNum 2) (PStr "succeeded");
             Activity (PNum 103) (PNum 3) (PStr "failed") ]
  end.

Definition demo_parent (tick : nat) : activity :=
  Activity (PNum 100) PUndefined
           (PStr match tick with O => "in-progress" | S _ => "succeeded" end).

Definition demo_world : World :=
  {| getComputers := fun _ _ => Ok demo_servers;
     executeScript := fun _ _ _ => Ok (demo_parent 0);
     getChildActivities := fun tick _ _ => Ok (demo_children tick);
     getActivities := fun tick _ _ => Ok [demo_parent tick];
     postSlack := fun _ => Ok tt |}.

(** The same, with a parent lookup that answers two activities. *)
Definition twin_world : World :=
  {| getComputers := fun _ _ => Ok demo_servers;
     executeScript := fun _ _ _ => Ok (demo_parent 0);
     getChildActivities := fun tick _ _ => Ok (demo_children tick);
     getActivities := fun tick _ _ =>
       Ok [demo_parent tick; Activity (PNum 100) PUndefined (PStr "failed")];
     postSlack := fun _ => Ok tt |}.

Definition demo_gServers : servers :=
  fold_left (fun (m : servers) srv => <[ToString (server_id srv) := srv]> m)
            demo_servers ∅.

Definition demo_argv : argv :=
  {| arg_dev := true; arg_script := Some "28"; arg_tag := Some "ply-servers" |}.

(** The events of one pass of the polling loop that generates the report
    [new] with the events [evs], the report before being [old]. *)
Definition pass_trace (old : option report) (evs : list event) (new : report)
  : list event :=
  Sleep 15 :: evs
  ++ (if isEqual old (Some new) then []
      else [Log Info "The deployment's current status is:"; PrintTable new])
  ++ [Log Info "Deploying the software..."].

(** The status of the summary record at poll [k], when the report of that
    poll is generated. *)
Definition poll_status (w : World) (i : instance) (gServers : servers)
    (parentId : prim) (k : nat) : option prim :=
  match (generateDetailedActivityReport w i gServers k parentId).2 with
  | Ret rep =>
    match summary_status rep with
    | Ok st => Some st
    | Throw _ => None
    end
  | _ => None
  end.

Definition is_print (e : event) : bool :=
  match e with
  | PrintTable _ => true
  | _ => false
  end.

(** The reports of the two polls of the example. *)
Definition demo_report (tick : nat) : report :=
  match tick with
  | O =>
    [ Record_ (PStr "A-host") (PNum 2) (PNum 102) (PStr "in-progress");
      Record_ (PStr "b-host") (PNum 1) (PNum 101) (PStr "queued");
      Record_ (PStr "c-host") (PNum 3) (PNum 103) (PStr "failed");
      Record_ (PStr "** ALL (Summary) **") (PStr "-") (PNum 100)
              (PStr "in-progress") ]
  | S _ =>
    [ Record_ (PStr "A-host") (PNum 2) (PNum 102) (PStr "succeeded");
      Record_ (PStr "b-host") (PNum 1) (PNum 101) (PStr "succeeded");
      Record_ (PStr "c-host") (PNum 3) (PNum 103) (PStr "failed");
      Record_ (PStr "** ALL (Summary) **") (PStr "-") (PNum 100)
              (PStr "succeeded") ]
  end.

Definition demo_globals : globals :=
  {| gLandscapeActivityGroup := "ply-servers";
     gLandscapeScript := Num 28;
     gLandscapeCmd := DEV |}.

(** The same deployment, with a Slack that refuses the notification of the
    end. *)
Definition deaf_world : World :=
  {| getComputers := getComputers demo_world;
     executeScript := executeScript demo_world;
     getChildActivities := getChildActivities demo_world;
     getActivities := getActivities demo_world;
     postSlack := fun text =>
       if String.prefix "I have finished" text then Throw CallFailed
       else Ok tt |}.

(** ** More vocabulary: the servers and the records *)

(** The last element of [l] that satisfies [P]. *)
Fixpoint last_match {A} (P : A -> bool) (l : list A) : option A :=
  match l with
  | [] => None
  | a :: l' =>
    match last_match P l' with
    | Some b => Some b
    | None => if P a then Some a else None
    end
  end.

(** The key of a computer in [gServers], and the key a child activity is
    looked up with. *)
Definition server_key (srv : server) : string := ToString (server_id srv).
Definition child_key (c : activity) : string := ToString (act_computer_id c).

(** The name of the record is a string. *)
Definition has_string_name (r : record) : Prop :=
  exists s, computer_name r = PStr s.

(** What a record takes from the child activity it is made of, and the
    same three values of the activity. *)
Definition record_fields (r : record) : prim * prim * prim :=
  (computer_id r, activity_id r, activity_status r).
Definition child_fields (c : activity) : prim * prim * prim :=
  (act_computer_id c, act_id c, act_activity_status c).

(** A deployment with a child activity on a computer that is not in the
    group, and one whose only computer has no hostname. *)
Definition stray_world : World :=
  {| getComputers := getComputers demo_world;
     executeScript := executeScript demo_world;
     getChildActivities := fun _ _ _ =>
       Ok [ Activity (PNum 101) (PNum 1) (PStr "queued");
            Activity (PNum 109) (PNum 9) (PStr "queued") ];
     getActivities := getActivities demo_world;
     postSlack := postSlack demo_world |}.

Definition nameless_servers : list server :=
  [ Server (PNum 1) PUndefined; Server (PNum 2) (PStr "A-host") ].

(** A decimal digit, and the letter that makes a hexadecimal prefix. *)
Definition is_dec_digit (c : ascii) : bool :=
  let n := N_of_ascii c in ((48 <=? n) && (n <=? 57))%N.

Definition is_x (c : ascii) : bool :=
  (Ascii.eqb c "x" || Ascii.eqb c "X")%bool.

(** ** More vocabulary: the loop and the run *)

(** The events a pass of the polling loop can have, for the instance [i]
    and the parent activity [id]. *)
Definition loop_event (i : instance) (id : prim) (e : event) : Prop :=
  e = Sleep 15 \/ e = GetChildActivities i id \/ e = GetActivities i id
  \/ e = Log Info "The deployment's current status is:"
  \/ (exists r, e = PrintTable r)
  \/ e = Log Info "Deploying the software...".

Definition is_get_children (e : event) : bool :=
  match e with
  | GetChildActivities _ _ => true
  | _ => false
  end.

Definition is_get_parent (e : event) : bool :=
  match e with
  | GetActivities _ _ => true
  | _ => false
  end.

(** The remote calls outside the polling loop. *)
Definition is_step (e : event) : bool :=
  match e with
  | GetComputers _ _ | ExecuteScript _ _ _ | Slack _ => true
  | _ => false
  end.

(** The reports of [l] that differ, for [isEqual], from the report before
    them, [old] being the report before the first. *)
Fixpoint changes (old : option report) (l : list report) : list report :=
  match l with
  | [] => []
  | r :: l' =>
    (if isEqual old (Some r) then [] else [r]) ++ changes (Some r) l'
  end.

(** The deployment of the example, with an API that fails on the query of
    the child activities at the second poll. *)
Definition flaky_world : World :=
  {| getComputers := getComputers demo_world;
     executeScript := executeScript demo_world;
     getChildActivities := fun tick i id =>
       match tick with
       | 1%nat => Throw CallFailed
       | _ => getChildActivities demo_world tick i id
       end;
     getActivities := getActivities demo_world;
     postSlack := postSlack demo_world |}.

(** The deployment of the example, with an API that cannot list the
    computers, and with a Slack that is down. *)
Definition offline_world : World :=
  {| getComputers := fun _ _ => Throw CallFailed;
     executeScript := executeScript demo_world;
     getChildActivities := getChildActivities demo_world;
     getActivities := getActivities demo_world;
     postSlack := postSlack demo_world |}.

Definition mute_world : World :=
  {| getComputers := getComputers demo_world;
     executeScript := executeScript demo_world;
     getChildActivities := getChildActivities demo_world;
     getActivities := getActivities demo_world;
     postSlack := fun _ => Throw CallFailed |}.

(** ** postSlackNotification: the command *)

Definition default_username : string := "Deployment Guru Bot".
Definition default_channel : string := "#bot-deployments".
Definition default_iconEmoji : string := ":octopus:".

(** The payload: JSON.stringify of the object of the four strings. *)
Definition slack_payload (text username channel iconEmoji : string) : string :=
  SerializeJSONObject
    [ ("username", PStr username); ("channel", PStr channel);
      ("icon_emoji", PStr iconEmoji); ("text", PStr text) ].

(** The command handed to [execSync]; [url] is the address of the hook. *)
Definition slack_command (url text username channel iconEmoji : string)
  : string :=
  "curl -s -X POST --data-urlencode 'payload="
  +:+ slack_payload text username channel iconEmoji +:+ "' " +:+ url.

Definition apostrophe : ascii := "039"%char.

Fixpoint count_char (c : ascii) (s : string) : nat :=
  match s with
  | EmptyString => O
  | String c' s' => ((if Ascii.eqb c' c then 1 else 0) + count_char c s')%nat
  end.

(** A query of the polling loop. *)
Definition is_query (e : event) : bool :=
  match e with
  | GetChildActivities _ _ | GetActivities _ _ => true
  | _ => false
  end.

(** A deployment whose one child activity runs on a computer with the id
    "constructor", which is no computer of the group. *)
Definition inherited_world : World :=
  {| getComputers := getComputers demo_world;
     executeScript := executeScript demo_world;
     getChildActivities := fun _ _ _ =>
       Ok [ Activity (PNum 109) (PStr "constructor") (PStr "queued") ];
     getActivities := getActivities demo_world;
     postSlack := postSlack demo_world |}.

(** What the report says of the computer of a record [r]: the key is a
    property of [gServers] itself and the name is the hostname found
    there, or the key names an inherited property and the name is
    [undefined]. *)
Definition name_from (gServers : servers) (r : record) : Prop :=
  match gServers !! ToString (computer_id r) with
  | Some srv => computer_name r = hostname srv
  | None =>
    inherited (ToString (computer_id r)) = true /\ computer_name r = PUndefined
  end.

(* ================================================================== *)
(** * Part II: properties                                              *)
(* ================================================================== *)

Example isEqual_example :
  isEqual (Some [Record_ (PStr "x") (PNum 7) (PNum 12) (PStr "queued")])
          (Some [Record_ (PStr "x") (PNum 7) (PNum 12) (PStr "queued")]) = true
  /\ JSON_stringify (Some [Record_ (PStr "x") (PNum 7) PUndefined (PStr "queued")])
     = String "[" (String "{" (QuoteJSONString "computer_name" +:+ ":" +:+
         QuoteJSONString "x" +:+ "," +:+ QuoteJSONString "computer_id" +:+
         ":7," +:+ QuoteJSONString "activity_status" +:+ ":" +:+
         QuoteJSONString "queued" +:+ "}]")).
Proof. split; reflexivity. Qed.

(** Unfolds one step of a run. *)
Ltac run_step :=
  cbv beta iota zeta delta [bind emit lift ret exit running rbind fst snd].

(** ** Strings *)

Lemma app_nil_l (s : string) : EmptyString +:+ s = s.
Proof. reflexivity. Qed.

Lemma app_cons (c : ascii) (s t : string) :
  String c s +:+ t = String c (s +:+ t).
Proof. reflexivity. Qed.

Lemma app_assoc (s t u : string) : (s +:+ t) +:+ u = s +:+ (t +:+ u).
Proof.
  induction s as [|c s IH]; [reflexivity|].
  rewrite !app_cons. now rewrite IH.
Qed.

Lemma app_nil_r (s : string) : s +:+ EmptyString = s.
Proof.
  induction s as [|c s IH]; [reflexivity|].
  rewrite app_cons. now rewrite IH.
Qed.

Create Rewrite HintDb str.
#[local] Hint Rewrite app_nil_l app_cons app_assoc : str.

(** ** The quotation of a string can be read back in one way only *)

Lemma json_unchar_char (c : ascii) (s : string) :
  json_unchar (json_char c +:+ s) = Some (c, s).
Proof.
  destruct c as [b0 b1 b2 b3 b4 b5 b6 b7].
  destruct b0, b1, b2, b3, b4, b5, b6, b7; reflexivity.
Qed.

Lemma json_unchar_dquote (s : string) : json_unchar (String dquote s) = None.
Proof. reflexivity. Qed.

Lemma json_escape_inj (s1 s2 r1 r2 : string) :
  json_escape s1 +:+ String dquote r1 = json_escape s2 +:+ String dquote r2 ->
  s1 = s2 /\ r1 = r2.
Proof.
  revert s2. induction s1 as [|c1 s1 IH]; intros [|c2 s2] H; cbn [json_escape] in H;
    autorewrite with str in H.
  - split; [reflexivity | congruence].
  - apply (f_equal json_unchar) in H.
    rewrite json_unchar_dquote, json_unchar_char in H. discriminate.
  - apply (f_equal json_unchar) in H.
    rewrite json_unchar_dquote, json_unchar_char in H. discriminate.
  - apply (f_equal json_unchar) in H. rewrite !json_unchar_char in H.
    injection H as -> H. destruct (IH _ H) as [-> ->]. split; reflexivity.
Qed.

Lemma QuoteJSONString_inj (s1 s2 r1 r2 : string) :
  QuoteJSONString s1 +:+ r1 = QuoteJSONString s2 +:+ r2 -> s1 = s2 /\ r1 = r2.
Proof.
  unfold QuoteJSONString. autorewrite with str. intros H.
  injection H as H. now apply json_escape_inj.
Qed.

(** ** A number can be read back in one way only *)

Lemma span_inj (P : ascii -> bool) (s1 s2 r1 r2 : string) :
  all_chars P s1 = true -> all_chars P s2 = true ->
  head_is P r1 = false -> head_is P r2 = false ->
  s1 +:+ r1 = s2 +:+ r2 -> s1 = s2 /\ r1 = r2.
Proof.
  revert s2. induction s1 as [|c1 s1 IH]; intros [|c2 s2] A1 A2 H1 H2 E;
    autorewrite with str in E; cbn [all_chars] in A1, A2.
  - now split.
  - subst r1. cbn in H1. apply andb_true_iff in A2 as [A2 _]. congruence.
  - subst r2. cbn in H2. apply andb_true_iff in A1 as [A1 _]. congruence.
  - injection E as -> E.
    apply andb_true_iff in A1 as [_ A1]. apply andb_true_iff in A2 as [_ A2].
    destruct (IH _ A1 A2 H1 H2 E) as [-> ->]. now split.
Qed.

Lemma string_of_uint_num (d : Decimal.uint) :
  all_chars is_num_char (NilEmpty.string_of_uint d) = true.
Proof. induction d; cbn; auto. Qed.

Lemma decimal_num (n : Z) : all_chars is_num_char (decimal n) = true.
Proof.
  unfold decimal. destruct (Z.to_int n); cbn; apply string_of_uint_num.
Qed.

Lemma decimal_inj (n1 n2 : Z) : decimal n1 = decimal n2 -> n1 = n2.
Proof.
  unfold decimal. intros H.
  apply (f_equal NilEmpty.int_of_string) in H. rewrite !NilEmpty.isi in H.
  injection H as H. apply (f_equal Z.of_int) in H.
  now rewrite !DecimalZ.of_to in H.
Qed.

Lemma delim_not_num (r : string) :
  head_is is_delim r = true -> head_is is_num_char r = false.
Proof.
  destruct r as [|c r]; [discriminate|]. cbn. unfold is_delim.
  intros H. repeat (apply orb_true_iff in H as [H|H]);
    apply Ascii.eqb_eq in H; subst c; reflexivity.
Qed.

Lemma decimal_span (n1 n2 : Z) (r1 r2 : string) :
  head_is is_delim r1 = true -> head_is is_delim r2 = true ->
  decimal n1 +:+ r1 = decimal n2 +:+ r2 -> n1 = n2 /\ r1 = r2.
Proof.
  intros D1 D2 E.
  destruct (span_inj is_num_char _ _ _ _ (decimal_num n1) (decimal_num n2)
              (delim_not_num _ D1) (delim_not_num _ D2) E) as [E1 E2].
  split; [now apply decimal_inj | assumption].
Qed.

(** The first character of a number followed by a delimiter is a sign, a
    digit or that delimiter. *)
Lemma decimal_head (n : Z) (r : string) :
  head_is is_delim r = true ->
  head_is (fun c => is_num_char c || is_delim c)%bool (decimal n +:+ r) = true.
Proof.
  intros D. pose proof (decimal_num n) as A.
  destruct (decimal n) as [|c s]; autorewrite with str; cbn in *.
  - destruct r; [discriminate|]. cbn in *. rewrite D. apply orb_true_r.
  - apply andb_true_iff in A as [-> _]. reflexivity.
Qed.

(** ** A serialised value can be read back in one way only *)

Lemma SerializeJSONProperty_text (v : prim) (s : string) :
  SerializeJSONProperty v = Some s -> json_text s.
Proof.
  destruct v as [| |[|]|n|t| |neg|]; cbn; intros H; try discriminate H;
    injection H as <-; try constructor.
  exact (text_number 0).
Qed.

Lemma json_text_span (s1 s2 r1 r2 : string) :
  json_text s1 -> json_text s2 ->
  head_is is_delim r1 = true -> head_is is_delim r2 = true ->
  s1 +:+ r1 = s2 +:+ r2 -> s1 = s2 /\ r1 = r2.
Proof.
  intros T1 T2 D1 D2 E.
  destruct T1 as [| | |n1|t1], T2 as [| | |n2|t2];
    try (autorewrite with str in E; injection E as ->; now split);
    try (autorewrite with str in E; discriminate E);
    try (match type of E with
         | _ = decimal ?n +:+ _ =>
           pose proof (decimal_head n _ D2) as Hd; rewrite <- E in Hd
         | decimal ?n +:+ _ = _ =>
           pose proof (decimal_head n _ D1) as Hd; rewrite E in Hd
         end; autorewrite with str in Hd; discriminate Hd).
  - destruct (decimal_span _ _ _ _ D1 D2 E) as [-> ->]. now split.
  - destruct (QuoteJSONString_inj _ _ _ _ E) as [-> ->]. now split.
Qed.

Lemma SerializeJSONProperty_span (v1 v2 : prim) (s1 s2 r1 r2 : string) :
  SerializeJSONProperty v1 = Some s1 -> SerializeJSONProperty v2 = Some s2 ->
  head_is is_delim r1 = true -> head_is is_delim r2 = true ->
  s1 +:+ r1 = s2 +:+ r2 -> s1 = s2 /\ r1 = r2.
Proof.
  intros S1 S2. apply json_text_span; eapply SerializeJSONProperty_text; eassumption.
Qed.

Lemma json_member_span (m1 m2 : string * string) (r1 r2 : string) :
  member_ok m1 -> member_ok m2 ->
  head_is is_delim r1 = true -> head_is is_delim r2 = true ->
  json_member m1 +:+ r1 = json_member m2 +:+ r2 -> m1 = m2 /\ r1 = r2.
Proof.
  destruct m1 as [k1 s1], m2 as [k2 s2]. intros [v1 S1] [v2 S2] D1 D2 E.
  unfold json_member in E. cbn [fst snd] in *. rewrite !app_assoc in E.
  apply QuoteJSONString_inj in E as [-> E]. autorewrite with str in E.
  injection E as E.
  destruct (SerializeJSONProperty_span _ _ _ _ _ _ S1 S2 D1 D2 E) as [-> ->].
  now split.
Qed.

Lemma json_member_head (m : string * string) (r : string) :
  head_is is_delim (json_member m +:+ r) = false.
Proof. reflexivity. Qed.

(** ** A comma-separated sequence can be read back in one way only *)

Section Join.
Context {A : Type} (enc : A -> string) (ok : A -> Prop)
        (same : A -> A -> Prop) (close : ascii).
Hypothesis close_delim : is_delim close = true.
Hypothesis close_not_comma : close <> ","%char.
Hypothesis enc_head :
  forall a r, head_is is_delim (enc a +:+ r) = false.
Hypothesis enc_span :
  forall a b r1 r2, ok a -> ok b ->
    head_is is_delim r1 = true -> head_is is_delim r2 = true ->
    enc a +:+ r1 = enc b +:+ r2 -> same a b /\ r1 = r2.

Lemma concat_cons (a : A) (l : list A) (r : string) :
  String.concat "," (map enc (a :: l)) +:+ r = enc a +:+ join_tail enc l r.
Proof.
  destruct l as [|b l]; [reflexivity|].
  change (String.concat "," (map enc (a :: b :: l)))
    with (enc a +:+ "," +:+ String.concat "," (map enc (b :: l))).
  now rewrite !app_assoc.
Qed.

Lemma join_tail_delim (l : list A) (r : string) :
  head_is is_delim (join_tail enc l (String close r)) = true.
Proof. destruct l; [exact close_delim | reflexivity]. Qed.

Lemma concat_span (l1 l2 : list A) (r1 r2 : string) :
  Forall ok l1 -> Forall ok l2 ->
  String.concat "," (map enc l1) +:+ String close r1
  = String.concat "," (map enc l2) +:+ String close r2 ->
  Forall2 same l1 l2 /\ r1 = r2.
Proof.
  revert l2. induction l1 as [|a l1 IH]; intros [|b l2] O1 O2 E.
  - cbn in E. autorewrite with str in E. injection E as ->.
    split; [constructor | reflexivity].
  - rewrite concat_cons in E. cbn in E. autorewrite with str in E.
    pose proof (enc_head b (join_tail enc l2 (String close r2))) as Hh.
    rewrite <- E in Hh. cbn in Hh. congruence.
  - rewrite concat_cons in E. cbn in E. autorewrite with str in E.
    pose proof (enc_head a (join_tail enc l1 (String close r1))) as Hh.
    rewrite E in Hh. cbn in Hh. congruence.
  - rewrite !concat_cons in E.
    apply Forall_cons in O1 as [Oa O1]. apply Forall_cons in O2 as [Ob O2].
    apply enc_span in E as [Hab E]; auto using join_tail_delim.
    destruct l1 as [|a1 l1], l2 as [|b1 l2]; cbn [join_tail] in E.
    + injection E as ->. split; [repeat constructor; assumption | reflexivity].
    + injection E as E _. contradiction.
    + injection E as E _. congruence.
    + injection E as E. destruct (IH _ O1 O2 E) as [HF ->].
      split; [constructor; assumption | reflexivity].
Qed.
End Join.

Lemma Forall2_eq_eq {A} (l k : list A) : Forall2 eq l k -> l = k.
Proof. induction 1 as [|a b l k -> _ ->]; reflexivity. Qed.

(** ** An object and an array can be read back in one way only *)

Lemma json_partial_ok (props : list (string * prim)) :
  Forall member_ok (json_partial props).
Proof.
  induction props as [|[k v] props IH]; [constructor|].
  unfold json_partial in *. cbn [omap list_omap fst snd].
  destruct (SerializeJSONProperty v) as [s|] eqn:E; cbn; [|exact IH].
  constructor; [now exists v | exact IH].
Qed.

Lemma SerializeJSONObject_span (p1 p2 : list (string * prim)) (r1 r2 : string) :
  SerializeJSONObject p1 +:+ r1 = SerializeJSONObject p2 +:+ r2 ->
  json_partial p1 = json_partial p2 /\ r1 = r2.
Proof.
  unfold SerializeJSONObject. autorewrite with str. intros E. injection E as E.
  apply (concat_span json_member member_ok eq "}") in E as [E ->];
    auto using json_member_head, json_member_span, json_partial_ok.
  split; [now apply Forall2_eq_eq | reflexivity].
Qed.

(** What is written for a value is what is written for the value read
    back, and two values are written in the same way only if they read
    back as the same value. *)
Lemma SerializeJSONProperty_json_value (v : prim) :
  SerializeJSONProperty (json_value v) = SerializeJSONProperty v.
Proof. destruct v as [| |[|]|n|t| |neg|]; reflexivity. Qed.

Lemma SerializeJSONProperty_inj (v1 v2 : prim) :
  SerializeJSONProperty v1 = SerializeJSONProperty v2 ->
  json_value v1 = json_value v2.
Proof.
  destruct v1 as [| |[|]|n1|t1| |g1|], v2 as [| |[|]|n2|t2| |g2|]; cbn;
    intros H; try discriminate H; try reflexivity; injection H as H;
    try (unfold QuoteJSONString in H; discriminate H);
    try (match type of H with
         | decimal ?n = _ =>
           pose proof (decimal_num n) as A; rewrite H in A
         | _ = decimal ?n =>
           pose proof (decimal_num n) as A; rewrite <- H in A
         end; unfold QuoteJSONString in A; cbn in A; discriminate A);
    try (apply decimal_inj in H; now subst);
    try (apply (decimal_inj _ 0) in H; now subst);
    try (apply (decimal_inj 0 _) in H; now subst).
  apply json_escape_inj in H as [-> _]. reflexivity.
Qed.

Lemma json_partial_json_record (r : record) :
  json_partial (record_props (json_record r)) = json_partial (record_props r).
Proof.
  unfold json_partial, record_props, json_record.
  cbn [omap list_omap fst snd computer_name computer_id activity_id
       activity_status].
  now rewrite !SerializeJSONProperty_json_value.
Qed.

Lemma record_props_inj (a b : record) :
  json_partial (record_props a) = json_partial (record_props b) ->
  same_json a b.
Proof.
  destruct a as [a1 a2 a3 a4], b as [b1 b2 b3 b4].
  unfold json_partial, record_props, same_json, json_record.
  cbn [omap list_omap fst snd computer_name computer_id activity_id
       activity_status].
  intros H.
  assert (SerializeJSONProperty a1 = SerializeJSONProperty b1 /\
          SerializeJSONProperty a2 = SerializeJSONProperty b2 /\
          SerializeJSONProperty a3 = SerializeJSONProperty b3 /\
          SerializeJSONProperty a4 = SerializeJSONProperty b4) as (E1 & E2 & E3 & E4).
  { revert H.
    destruct (SerializeJSONProperty a1), (SerializeJSONProperty b1),
      (SerializeJSONProperty a2), (SerializeJSONProperty b2),
      (SerializeJSONProperty a3), (SerializeJSONProperty b3),
      (SerializeJSONProperty a4), (SerializeJSONProperty b4);
      cbn; intros H; try discriminate H; simplify_eq; auto. }
  apply SerializeJSONProperty_inj in E1, E2, E3, E4. congruence.
Qed.

Lemma record_span (a b : record) (r1 r2 : string) :
  SerializeJSONObject (record_props a) +:+ r1
  = SerializeJSONObject (record_props b) +:+ r2 -> same_json a b /\ r1 = r2.
Proof.
  intros E. apply SerializeJSONObject_span in E as [E ->].
  split; [now apply record_props_inj | reflexivity].
Qed.

Lemma JSON_stringify_json_report (v : option report) :
  JSON_stringify (json_report v) = JSON_stringify v.
Proof.
  destruct v as [l|]; [|reflexivity]. cbn. unfold SerializeJSONArray.
  do 3 f_equal. rewrite map_map. apply map_ext. intros r.
  unfold SerializeJSONObject. now rewrite json_partial_json_record.
Qed.

Lemma JSON_stringify_inj (v1 v2 : option report) :
  JSON_stringify v1 = JSON_stringify v2 -> json_report v1 = json_report v2.
Proof.
  destruct v1 as [l1|], v2 as [l2|]; cbn; try discriminate; [|reflexivity].
  unfold SerializeJSONArray. intros E. injection E as E.
  apply (concat_span _ (fun _ => True) same_json "]") in E as [E _];
    auto using record_span; try discriminate.
  - f_equal. induction E as [|a b l1 l2 Hab _ IH]; [reflexivity|].
    cbn [map]. now rewrite Hab, IH.
  - apply Forall_forall; auto.
  - apply Forall_forall; auto.
Qed.

(** ** isEqual *)

Lemma same_fields_eq (a b : record) : same_fields a b <-> a = b.
Proof.
  unfold same_fields. destruct a, b; cbn. split.
  - intros (-> & -> & -> & ->). reflexivity.
  - intros H. injection H as -> -> -> ->. auto.
Qed.

Lemma Forall2_same_fields (l1 l2 : report) :
  Forall2 same_fields l1 l2 <-> l1 = l2.
Proof.
  split.
  - induction 1 as [|a b l1 l2 H _ IH]; [reflexivity|].
    apply same_fields_eq in H. now subst.
  - intros ->. induction l2; constructor; auto. now apply same_fields_eq.
Qed.

Lemma isEqual_json_report (v1 v2 : option report) :
  isEqual v1 v2 = true <-> json_report v1 = json_report v2.
Proof.
  unfold isEqual. rewrite String.eqb_eq. split.
  - apply JSON_stringify_inj.
  - intros H. rewrite <- (JSON_stringify_json_report v1), H.
    apply JSON_stringify_json_report.
Qed.

Lemma plain_report (l : report) :
  Forall plain_record l -> map json_record l = l.
Proof.
  induction 1 as [|[a1 a2 a3 a4] l (H1 & H2 & H3 & H4) _ IH]; [reflexivity|].
  cbn [map]. rewrite IH. unfold json_record, plain in *. cbn in *. congruence.
Qed.

(** Two reports that differ in the activity id of their one record, and
    are equal for [isEqual]: the id is Infinity in the first (the text
    [1e400] read by [JSON.parse]) and [null] in the second, and both are
    written [null]. *)
Lemma isEqual_infinity_null :
  let r1 := [Record_ (PStr "x") (PNum 7) (PInf false) (PStr "queued")] in
  let r2 := [Record_ (PStr "x") (PNum 7) PNull (PStr "queued")] in
  isEqual (Some r1) (Some r2) = true
  /\ ~ Forall2 same_fields r1 r2
  /\ ~ (forall l1 l2 : report,
          ~ Forall2 same_fields l1 l2 -> isEqual (Some l1) (Some l2) = false).
Proof.
  cbn zeta.
  assert (~ Forall2 same_fields
            [Record_ (PStr "x") (PNum 7) (PInf false) (PStr "queued")]
            [Record_ (PStr "x") (PNum 7) PNull (PStr "queued")]) as Hn.
  { intros H. apply Forall2_same_fields in H. discriminate H. }
  split; [reflexivity|]. split; [exact Hn|].
  intros H. specialize (H _ _ Hn). discriminate H.
Qed.

(** C3, as the code has it.  Two values of the report variables ([null] or
    a report) are equal for [isEqual] exactly when JSON writes them in the
    same way: they have the same records in the same order, and record by
    record every field (name, computer id, activity id, status) has the
    same value once a number that is not finite is taken for [null] and -0
    for 0.  So reports that are the same field by field always pass; a
    report that fails differs in a field; and among reports without such
    numbers the check is exact: they pass exactly when they are the same
    field by field, and fail exactly when they differ in a field. *)
Theorem isEqual_iff_same_json (report1 report2 : option report) :
  (isEqual report1 report2 = true <-> json_report report1 = json_report report2)
  /\ (forall l1 l2 : report,
        isEqual (Some l1) (Some l2) = true <-> Forall2 same_json l1 l2)
  /\ (forall l1 l2 : report,
        Forall2 same_fields l1 l2 -> isEqual (Some l1) (Some l2) = true)
  /\ (forall l1 l2 : report,
        isEqual (Some l1) (Some l2) = false -> ~ Forall2 same_fields l1 l2)
  /\ (forall l1 l2 : report,
        Forall plain_record l1 -> Forall plain_record l2 ->
        (isEqual (Some l1) (Some l2) = true <-> Forall2 same_fields l1 l2)
        /\ (isEqual (Some l1) (Some l2) = false
            <-> ~ Forall2 same_fields l1 l2)).
Proof.
  assert (Hsame : forall l1 l2 : report,
             Forall2 same_fields l1 l2 -> isEqual (Some l1) (Some l2) = true).
  { intros l1 l2 H. apply Forall2_same_fields in H as ->.
    now apply isEqual_json_report. }
  assert (Hplain : forall l1 l2 : report,
             Forall plain_record l1 -> Forall plain_record l2 ->
             (isEqual (Some l1) (Some l2) = true <-> Forall2 same_fields l1 l2)).
  { intros l1 l2 P1 P2. split; [|apply Hsame].
    intros H. apply isEqual_json_report in H. cbn in H. injection H as H.
    rewrite !plain_report in H by assumption. now apply Forall2_same_fields. }
  split; [apply isEqual_json_report|]. split; [|split; [exact Hsame|split]].
  - intros l1 l2. rewrite isEqual_json_report. cbn. split.
    + intros H. injection H as H. revert l2 H.
      induction l1 as [|a l1 IH]; intros [|b l2] H; try discriminate H;
        constructor.
      * exact (f_equal (List.hd (json_record a)) H).
      * apply IH. exact (f_equal (@List.tl record) H).
    + intros H. f_equal. induction H as [|a b l1 l2 Hab _ IH]; [reflexivity|].
      cbn [map]. now rewrite Hab, IH.
  - intros l1 l2 H Hs. rewrite (Hsame _ _ Hs) in H. discriminate H.
  - intros l1 l2 P1 P2. split; [now apply Hplain|].
    rewrite <- not_true_iff_false, (Hplain _ _ P1 P2). reflexivity.
Qed.

Lemma isEqual_iff_same_json_demo :
  (isEqual (Some (demo_report 0)) (Some (demo_report 1)) = true
   <-> Forall2 same_fields (demo_report 0) (demo_report 1))
  /\ (isEqual (Some (demo_report 0)) (Some (demo_report 1)) = false
      <-> ~ Forall2 same_fields (demo_report 0) (demo_report 1)).
Proof.
  apply (proj2 (proj2 (proj2 (proj2
           (isEqual_iff_same_json (Some (demo_report 0))
                                  (Some (demo_report 1)))))));
    repeat constructor.
Defined.

Lemma isEqual_null_report (r : report) : isEqual None (Some r) = false.
Proof.
  destruct (isEqual None (Some r)) eqn:E; [|reflexivity].
  apply isEqual_json_report in E. discriminate.
Qed.

Lemma record_differs (a b : record) :
  a <> b <->
  computer_name a <> computer_name b \/ computer_id a <> computer_id b \/
  activity_id a <> activity_id b \/ activity_status a <> activity_status b.
Proof.
  assert (EqDecision prim) by (unfold EqDecision, Decision; repeat decide equality).
  destruct a as [a1 a2 a3 a4], b as [b1 b2 b3 b4]; cbn. split.
  - intros H.
    destruct (decide (a1 = b1)); [|now left].
    destruct (decide (a2 = b2)); [|now right; left].
    destruct (decide (a3 = b3)); [|now right; right; left].
    destruct (decide (a4 = b4)); [|now right; right; right].
    subst. contradiction.
  - intros [H|[H|[H|H]]] E; injection E; intros; contradiction.
Qed.

(** ** convertDetailedActivityReportToText *)

Lemma convert_fold (l : report) (acc : string) :
  fold_left (fun report r => report +:+ report_line r) l acc
  = acc +:+ convertDetailedActivityReportToText l.
Proof.
  unfold convertDetailedActivityReportToText. revert acc.
  induction l as [|r l IH]; intros acc; cbn [fold_left].
  - now rewrite app_nil_r.
  - rewrite IH. rewrite (IH (EmptyString +:+ _)). now rewrite app_nil_l, app_assoc.
Qed.

(** C8.  The text of a report is the lines of its records in report order,
    one per record; a line is the name, a colon and a space, the status and
    a newline.  On the report of the computer "x" with its summary the text
    is the two lines "x: succeeded" and "** ALL (Summary) **: succeeded". *)
Theorem convertDetailedActivityReportToText_lines :
  convertDetailedActivityReportToText [] = EmptyString
  /\ (forall r l,
        convertDetailedActivityReportToText (r :: l)
        = ToString (computer_name r) +:+ ": " +:+ ToString (activity_status r)
          +:+ String newline (convertDetailedActivityReportToText l))
  /\ (forall l,
        convertDetailedActivityReportToText l
        = String.concat EmptyString (map report_line l) /\
        length (map report_line l) = length l)
  /\ convertDetailedActivityReportToText
       [ {| computer_name := PStr "x"; computer_id := PNum 1;
            activity_id := PNum 101; activity_status := PStr "succeeded" |};
         {| computer_name := PStr "** ALL (Summary) **"; computer_id := PStr "-";
            activity_id := PNum 100; activity_status := PStr "succeeded" |} ]
     = "x: succeeded" +:+ String newline
         ("** ALL (Summary) **: succeeded" +:+ String newline EmptyString).
Proof.
  assert (Hcons : forall r l,
             convertDetailedActivityReportToText (r :: l)
             = report_line r +:+ convertDetailedActivityReportToText l).
  { intros r l. unfold convertDetailedActivityReportToText at 1.
    cbn [fold_left]. now rewrite convert_fold, app_nil_l. }
  split; [reflexivity|]. split; [|split; [|reflexivity]].
  - intros r l. rewrite Hcons. unfold report_line. now rewrite !app_assoc.
  - intros l. split; [|apply length_map].
    induction l as [|r l IH]; [reflexivity|].
    rewrite Hcons, IH. destruct l as [|r' l]; [|reflexivity].
    cbn. now rewrite app_nil_r.
Qed.

(** ** The comparator and the sort *)

Lemma leb_refl (s : string) : String.leb s s = true.
Proof.
  destruct (String.leb_total s s); assumption.
Qed.

Lemma leb_trans (a b c : string) :
  String.leb a b = true -> String.leb b c = true -> String.leb a c = true.
Proof.
  intros H1 H2. apply Is_true_true.
  apply (@transitivity _ String.le _ a b c); now apply Is_true_true.
Qed.

Lemma compare_records_inv (a b : record) (c : Z) :
  compare_records a b = Ok c ->
  exists la lb, lower_name a = Ok la /\ lower_name b = Ok lb
                /\ (c <=? 0) = String.leb la lb.
Proof.
  unfold compare_records.
  destruct (lower_name a) as [la|]; [|discriminate].
  destruct (lower_name b) as [lb|]; [|discriminate].
  cbn. intros H. injection H as <-. exists la, lb. repeat split.
  unfold String.ltb, String.leb. rewrite (String.compare_antisym lb la).
  destruct (String.compare la lb); reflexivity.
Qed.

Lemma name_le_trans (a b c : record) : name_le a b -> name_le b c -> name_le a c.
Proof.
  intros (la & lb & Ha & Hb & H1) (lb' & lc & Hb' & Hc & H2).
  rewrite Hb in Hb'. injection Hb' as <-.
  exists la, lc. eauto using leb_trans.
Qed.

Lemma same_key_le_false (k : string) (x y : record) (la lb : string) :
  lower_name x = Ok la -> lower_name y = Ok lb -> String.leb la lb = false ->
  same_key k x = true -> same_key k y = false.
Proof.
  unfold same_key. intros -> -> Hle Hx.
  apply String.eqb_eq in Hx. subst k.
  apply String.eqb_neq. intros ->. now rewrite leb_refl in Hle.
Qed.

Lemma sort_insert_sorted (x : record) (l l' : list record) :
  StronglySorted name_le l ->
  sort_insert compare_records x l = Ok l' ->
  sorted_from (x :: l) l'.
Proof.
  revert l'. induction l as [|y l IH]; intros l' Hs H; cbn in H.
  - injection H as <-. split; auto. repeat constructor.
  - destruct (compare_records x y) as [c|] eqn:Hc; [|discriminate]. cbn in H.
    destruct (compare_records_inv _ _ _ Hc) as (la & lb & Hx & Hy & Hle).
    apply StronglySorted_inv in Hs as [Hs Hy_le].
    destruct (c <=? 0) eqn:Hc0.
    + injection H as <-.
      assert (name_le x y) as Hxy by (exists la, lb; repeat split; congruence).
      split; auto. constructor; [now constructor|].
      constructor; [assumption|].
      eapply List.Forall_impl; [|exact Hy_le]. intros z. now apply name_le_trans.
    + destruct (sort_insert compare_records x l) as [l''|] eqn:Hi; [|discriminate].
      cbn in H. injection H as <-.
      destruct (IH _ Hs eq_refl) as [Hp Hso Hst].
      assert (name_le y x) as Hyx.
      { exists lb, la. repeat split; auto.
        destruct (String.leb_total la lb); congruence. }
      split.
      * rewrite perm_swap. now constructor.
      * constructor; [assumption|].
        eapply Permutation_Forall; [exact Hp|]. now constructor.
      * intros k. cbn [List.filter]. rewrite Hst. cbn [List.filter].
        destruct (same_key k x) eqn:Kx; [|reflexivity].
        now rewrite (same_key_le_false k x y la lb) by congruence.
Qed.

Lemma sort_sorted (l s : list record) :
  sort compare_records l = Ok s -> sorted_from l s.
Proof.
  revert s. induction l as [|x l IH]; intros s H; cbn in H.
  - injection H as <-. split; auto. constructor.
  - destruct (sort compare_records l) as [s'|] eqn:Hs'; [|discriminate].
    cbn in H. destruct (IH _ eq_refl) as [Hp Hso Hst].
    destruct (sort_insert_sorted _ _ _ Hso H) as [Hp' Hso' Hst'].
    split; auto.
    + rewrite <- Hp'. now constructor.
    + intros k. rewrite Hst'. cbn [List.filter]. now rewrite Hst.
Qed.

(** The sort returns whenever every name is a string. *)
Lemma sort_insert_total (x : record) (l : list record) :
  Forall (fun r => exists s, computer_name r = PStr s) (x :: l) ->
  exists l', sort_insert compare_records x l = Ok l'.
Proof.
  intros H. apply Forall_cons in H as [[sx Hx] H].
  induction l as [|y l IH]; cbn [sort_insert]; [eauto|].
  apply Forall_cons in H as [[sy Hy] H].
  assert (exists c, compare_records x y = Ok c) as [c ->].
  { unfold compare_records, lower_name. rewrite Hx, Hy. cbn. eauto. }
  cbn [rbind]. destruct (c <=? 0); [eauto|].
  destruct (IH H) as [l' ->]. cbn [rbind]. eauto.
Qed.

Lemma sort_total (l : list record) :
  Forall (fun r => exists s, computer_name r = PStr s) l ->
  exists s, sort compare_records l = Ok s.
Proof.
  induction l as [|x l IH]; intros H; cbn; [eauto|].
  apply Forall_cons in H as [Hx H]. destruct (IH H) as [s Hs]. rewrite Hs. cbn.
  apply sort_insert_total. constructor; [assumption|].
  destruct (sort_sorted _ _ Hs) as [Hp _ _].
  eapply Permutation_Forall; eassumption.
Qed.

(** ** generateDetailedActivityReport *)

Lemma generateDetailedActivityReport_run (w : World) (i : instance)
    (srv : servers) (tick : nat) (id : prim) :
  generateDetailedActivityReport w i srv tick id =
  match getChildActivities w tick i id with
  | Throw e => ([GetChildActivities i id], Thrown e)
  | Ok children =>
    match rbind (forEach (child_record srv) children) (sort compare_records) with
    | Throw e => ([GetChildActivities i id], Thrown e)
    | Ok sorted =>
      match rbind (getActivities w tick i id) first_activity with
      | Throw e => ([GetChildActivities i id; GetActivities i id], Thrown e)
      | Ok parent =>
        ([GetChildActivities i id; GetActivities i id],
         Ret (sorted ++ [summary_record parent]))
      end
    end
  end.
Proof.
  unfold generateDetailedActivityReport.
  destruct (getChildActivities w tick i id) as [children|]; [|reflexivity].
  run_step.
  destruct (forEach (child_record srv) children) as [recs|]; [|reflexivity].
  run_step.
  destruct (sort compare_records recs) as [sorted|]; [|reflexivity].
  run_step.
  destruct (getActivities w tick i id) as [[|parent rest]|]; reflexivity.
Qed.

Example demo_report_0 :
  generateDetailedActivityReport demo_world DEV demo_gServers 0 (PNum 100)
  = ([GetChildActivities DEV (PNum 100); GetActivities DEV (PNum 100)],
     Ret [ Record_ (PStr "A-host") (PNum 2) (PNum 102) (PStr "in-progress");
           Record_ (PStr "b-host") (PNum 1) (PNum 101) (PStr "queued");
           Record_ (PStr "c-host") (PNum 3) (PNum 103) (PStr "failed");
           Record_ (PStr "** ALL (Summary) **") (PStr "-") (PNum 100)
                   (PStr "in-progress") ]).
Proof. vm_compute. reflexivity. Qed.

Lemma last_snoc (l : report) (r : record) : last (l ++ [r]) = Some r.
Proof. induction l as [|x [|y l] IH]; auto. Qed.



(** The report is returned whenever the two lookups answer, every child
    runs on a computer of [gServers] whose hostname is a string, and the
    parent lookup answers at least one activity. *)
Lemma generateDetailedActivityReport_returns (w : World) (i : instance)
    (srv : servers) (tick : nat) (id : prim)
    (children : list activity) (recs : list record) (parent : activity)
    (rest : list activity) :
  getChildActivities w tick i id = Ok children ->
  forEach (child_record srv) children = Ok recs ->
  Forall (fun r => exists s, computer_name r = PStr s) recs ->
  getActivities w tick i id = Ok (parent :: rest) ->
  exists sorted,
    sort compare_records recs = Ok sorted /\
    generateDetailedActivityReport w i srv tick id
    = ([GetChildActivities i id; GetActivities i id],
       Ret (sorted ++ [summary_record parent])).
Proof.
  intros Hc Hr Hn Hp. destruct (sort_total _ Hn) as [sorted Hs].
  exists sorted. split; [assumption|].
  rewrite generateDetailedActivityReport_run, Hc, Hr. cbn [rbind].
  now rewrite Hs, Hp.
Qed.

(** A parent lookup that answers two activities: the report is returned
    all the same, with the summary of the first. *)
Lemma parent_lookup_two_records_report :
  getActivities twin_world 0 DEV (PNum 100)
  = Ok [demo_parent 0; Activity (PNum 100) PUndefined (PStr "failed")]
  /\ (generateDetailedActivityReport twin_world DEV demo_gServers 0 (PNum 100)).2
     = Ret [ Record_ (PStr "A-host") (PNum 2) (PNum 102) (PStr "in-progress");
             Record_ (PStr "b-host") (PNum 1) (PNum 101) (PStr "queued");
             Record_ (PStr "c-host") (PNum 3) (PNum 103) (PStr "failed");
             Record_ (PStr "** ALL (Summary) **") (PStr "-") (PNum 100)
                     (PStr "in-progress") ]
  /\ ~ (exists e,
          (generateDetailedActivityReport twin_world DEV demo_gServers 0
             (PNum 100)).2 = Thrown e).
Proof.
  split; [reflexivity|]. split; [vm_compute; reflexivity|].
  intros [e H]. vm_compute in H. discriminate H.
Qed.

(** C5, as the code has it.  When the parent lookup answers no activity the
    report generation throws (a TypeError, on reading the id of undefined)
    and no report is returned.  When it answers one activity or more, the
    first one is taken and the others are not looked at: provided the child
    records are built and sorted, the report is returned, with the summary
    of the first activity. *)
Theorem parent_lookup_first_record (w : World) (i : instance) (srv : servers)
    (tick : nat) (id : prim) (parents : list activity) :
  getActivities w tick i id = Ok parents ->
  match parents with
  | [] =>
    (exists e, (generateDetailedActivityReport w i srv tick id).2 = Thrown e)
    /\ (forall children sorted,
          getChildActivities w tick i id = Ok children ->
          rbind (forEach (child_record srv) children) (sort compare_records)
          = Ok sorted ->
          (generateDetailedActivityReport w i srv tick id).2 = Thrown TypeError)
  | parent :: _ =>
    forall children sorted,
      getChildActivities w tick i id = Ok children ->
      rbind (forEach (child_record srv) children) (sort compare_records)
      = Ok sorted ->
      generateDetailedActivityReport w i srv tick id
      = ([GetChildActivities i id; GetActivities i id],
         Ret (sorted ++ [summary_record parent]))
  end.
Proof.
  intros Hp. rewrite generateDetailedActivityReport_run, Hp.
  destruct parents as [|parent rest].
  - split.
    + destruct (getChildActivities w tick i id) as [children|]; [|cbn; eauto].
      destruct (rbind _ _); cbn; eauto.
    + intros children sorted -> ->. reflexivity.
  - intros children sorted -> ->. reflexivity.
Qed.

Lemma parent_lookup_first_record_twin :
  generateDetailedActivityReport twin_world DEV demo_gServers 0 (PNum 100)
  = ([GetChildActivities DEV (PNum 100); GetActivities DEV (PNum 100)],
     Ret ([ Record_ (PStr "A-host") (PNum 2) (PNum 102) (PStr "in-progress");
            Record_ (PStr "b-host") (PNum 1) (PNum 101) (PStr "queued");
            Record_ (PStr "c-host") (PNum 3) (PNum 103) (PStr "failed") ]
          ++ [summary_record (demo_parent 0)])).
Proof.
  apply (parent_lookup_first_record twin_world DEV demo_gServers 0 (PNum 100)
           [demo_parent 0; Activity (PNum 100) PUndefined (PStr "failed")]
           eq_refl (demo_children 0));
    vm_compute; reflexivity.
Defined.

(** ** The polling loop *)

Lemma continue_terminal (st : prim) : continue st = negb (terminal st).
Proof.
  unfold continue, terminal.
  destruct (status_is st "succeeded"), (status_is st "failed"),
    (status_is st "canceled"); reflexivity.
Qed.

Lemma poll_body_run (w : World) (i : instance) (srv : servers) (id : prim)
    (tick : nat) (old : option report) :
  poll_body w i srv id tick old =
  match generateDetailedActivityReport w i srv tick id with
  | (evs, Ret new) => (pass_trace old evs new, Ret new)
  | (evs, Exit c) => (Sleep 15 :: evs, Exit c)
  | (evs, Thrown e) => (Sleep 15 :: evs, Thrown e)
  | (evs, Running) => (Sleep 15 :: evs, Running)
  end.
Proof.
  unfold poll_body, pass_trace.
  destruct (generateDetailedActivityReport w i srv tick id) as [evs [new|c|e|]];
    run_step; try reflexivity.
  destruct (isEqual old (Some new)); cbn; now rewrite <- ?List.app_assoc.
Qed.

Lemma poll_unfold (w : World) (i : instance) (srv : servers) (id : prim)
    (fuel tick : nat) (old : option report) :
  poll w i srv id fuel tick old =
  match generateDetailedActivityReport w i srv tick id with
  | (evs, Ret new) =>
    match summary_status new with
    | Ok st =>
      if continue st then
        match fuel with
        | O => (pass_trace old evs new, Running)
        | S fuel' =>
          (pass_trace old evs new
             ++ (poll w i srv id fuel' (S tick) (Some new)).1,
           (poll w i srv id fuel' (S tick) (Some new)).2)
        end
      else (pass_trace old evs new, Ret new)
    | Throw e => (pass_trace old evs new, Thrown e)
    end
  | (evs, Exit c) => (Sleep 15 :: evs, Exit c)
  | (evs, Thrown e) => (Sleep 15 :: evs, Thrown e)
  | (evs, Running) => (Sleep 15 :: evs, Running)
  end.
Proof.
  destruct fuel; cbn [poll]; rewrite poll_body_run;
    destruct (generateDetailedActivityReport w i srv tick id) as [evs [new|c|e|]];
    try reflexivity;
    unfold bind at 1; cbn [fst snd];
    (destruct (summary_status new) as [st|e];
     [|cbn; now rewrite List.app_nil_r]);
    unfold bind, lift; cbn [fst snd];
    destruct (continue st); cbn; now rewrite ?List.app_nil_r.
Qed.

Lemma count_events_app (P : event -> bool) (a b : list event) :
  count_events P (a ++ b) = (count_events P a + count_events P b)%nat.
Proof. unfold count_events. now rewrite List.filter_app, length_app. Qed.

Lemma generate_no_sleep (w : World) (i : instance) (srv : servers) (tick : nat)
    (id : prim) :
  count_events is_sleep (generateDetailedActivityReport w i srv tick id).1 = O.
Proof.
  rewrite generateDetailedActivityReport_run.
  destruct (getChildActivities w tick i id); [|reflexivity].
  destruct (rbind _ _); [|reflexivity].
  destruct (rbind _ _); reflexivity.
Qed.

Lemma pass_trace_sleeps (old : option report) (evs : list event) (new : report) :
  count_events is_sleep evs = O ->
  count_events is_sleep (pass_trace old evs new) = 1%nat.
Proof.
  intros H. unfold pass_trace.
  change (Sleep 15 :: ?l) with ([Sleep 15] ++ l).
  rewrite !count_events_app, H. now destruct (isEqual old (Some new)).
Qed.

Lemma poll_status_inv (w : World) (i : instance) (srv : servers) (id : prim)
    (k : nat) (st : prim) :
  poll_status w i srv id k = Some st ->
  exists evs rep,
    generateDetailedActivityReport w i srv k id = (evs, Ret rep)
    /\ summary_status rep = Ok st.
Proof.
  unfold poll_status.
  destruct (generateDetailedActivityReport w i srv k id) as [evs [rep|c|e|]];
    cbn; try discriminate.
  destruct (summary_status rep) as [st'|] eqn:Hs; [|discriminate].
  intros H. injection H as ->. eauto.
Qed.




Lemma demo_poll_status (k : nat) :
  poll_status demo_world DEV demo_gServers (PNum 100) k
  = Some (PStr match k with O => "in-progress" | S _ => "succeeded" end).
Proof. destruct k; vm_compute; reflexivity. Qed.


Example demo_run_polls_twice :
  (poll demo_world DEV demo_gServers (PNum 100) 5 0 None).2 = Ret (demo_report 1)
  /\ List.filter is_print
       (poll demo_world DEV demo_gServers (PNum 100) 5 0 None).1
     = [PrintTable (demo_report 0); PrintTable (demo_report 1)]
  /\ (poll demo_world DEV demo_gServers (PNum 100) 0 0 None).2 = Running.
Proof. repeat split; vm_compute; reflexivity. Qed.

Lemma generate_no_print (w : World) (i : instance) (srv : servers) (tick : nat)
    (id : prim) :
  List.filter is_print (generateDetailedActivityReport w i srv tick id).1 = [].
Proof.
  rewrite generateDetailedActivityReport_run.
  destruct (getChildActivities w tick i id); [|reflexivity].
  destruct (rbind _ _); [|reflexivity].
  destruct (rbind _ _); reflexivity.
Qed.

(** C4.  In a pass of the loop that fetches the report [new], the report
    before being [old]: the events of the pass are the sleep, the events of
    the fetch, the status line and the table of [new] unless [isEqual old
    new], and the "Deploying" line; so the table is printed exactly when
    [isEqual] answers false.  Whatever [isEqual] answers, the next pass, if
    there is one, runs with [new] as the report before. *)
Theorem poll_pass_emits_changes (w : World) (i : instance) (srv : servers)
    (id : prim) (fuel tick : nat) (old : option report)
    (evs : list event) (new : report) :
  generateDetailedActivityReport w i srv tick id = (evs, Ret new) ->
  poll_body w i srv id tick old
  = (Sleep 15 :: evs
     ++ (if isEqual old (Some new) then []
         else [Log Info "The deployment's current status is:"; PrintTable new])
     ++ [Log Info "Deploying the software..."],
     Ret new)
  /\ List.filter is_print (poll_body w i srv id tick old).1
     = (if isEqual old (Some new) then [] else [PrintTable new])
  /\ (forall st, summary_status new = Ok st -> continue st = true ->
        poll w i srv id (S fuel) tick old
        = ((poll_body w i srv id tick old).1
             ++ (poll w i srv id fuel (S tick) (Some new)).1,
           (poll w i srv id fuel (S tick) (Some new)).2)).
Proof.
  intros Hg. pose proof (generate_no_print w i srv tick id) as Hn.
  rewrite poll_body_run, Hg in *. cbn [fst snd] in *. split; [reflexivity|].
  split.
  - unfold pass_trace. cbn [List.filter is_print].
    rewrite !List.filter_app, Hn. now destruct (isEqual old (Some new)).
  - intros st Hs Hc. now rewrite poll_unfold, Hg, Hs, Hc.
Qed.

Lemma poll_pass_emits_changes_demo :
  poll_body demo_world DEV demo_gServers (PNum 100) 1 (Some (demo_report 0))
  = (Sleep 15 :: [GetChildActivities DEV (PNum 100); GetActivities DEV (PNum 100)]
     ++ (if isEqual (Some (demo_report 0)) (Some (demo_report 1)) then []
         else [Log Info "The deployment's current status is:";
               PrintTable (demo_report 1)])
     ++ [Log Info "Deploying the software..."],
     Ret (demo_report 1))
  /\ List.filter is_print
       (poll_body demo_world DEV demo_gServers (PNum 100) 1
          (Some (demo_report 0))).1
     = (if isEqual (Some (demo_report 0)) (Some (demo_report 1)) then []
        else [PrintTable (demo_report 1)])
  /\ (forall st, summary_status (demo_report 1) = Ok st -> continue st = true ->
        poll demo_world DEV demo_gServers (PNum 100) 3 1 (Some (demo_report 0))
        = ((poll_body demo_world DEV demo_gServers (PNum 100) 1
              (Some (demo_report 0))).1
             ++ (poll demo_world DEV demo_gServers (PNum 100) 2 2
                   (Some (demo_report 1))).1,
           (poll demo_world DEV demo_gServers (PNum 100) 2 2
              (Some (demo_report 1))).2)).
Proof.
  apply (poll_pass_emits_changes demo_world DEV demo_gServers (PNum 100) 2 1
           (Some (demo_report 0))).
  vm_compute. reflexivity.
Defined.

(** C10.  The loop makes its first pass whatever the status of the parent:
    the run of the loop starts with the sleep of 15 seconds and the query
    of the child activities.  When that first fetch returns a report, the
    run goes on with the status line and the table of that report (the
    report before is null, which is no report) and the "Deploying" line;
    if the status of the report is already succeeded, failed or canceled,
    the run of the loop is exactly that one pass and the loop returns the
    report. *)
Theorem poll_first_pass (w : World) (i : instance) (srv : servers) (id : prim)
    (fuel : nat) :
  (exists rest,
     (poll w i srv id fuel 0 None).1
     = Sleep 15 :: GetChildActivities i id :: rest)
  /\ (forall evs new,
        generateDetailedActivityReport w i srv 0 id = (evs, Ret new) ->
        exists rest,
          (poll w i srv id fuel 0 None).1
          = Sleep 15 :: evs
            ++ [Log Info "The deployment's current status is:";
                PrintTable new; Log Info "Deploying the software..."]
            ++ rest
          /\ (forall st, summary_status new = Ok st -> terminal st = true ->
                rest = [] /\ (poll w i srv id fuel 0 None).2 = Ret new)).
Proof.
  split.
  - rewrite poll_unfold, generateDetailedActivityReport_run.
    destruct (getChildActivities w 0 i id) as [children|]; [|cbn; eauto].
    destruct (rbind _ _) as [sorted|]; [|cbn; eauto].
    destruct (rbind _ _) as [parent|]; [|cbn; eauto].
    destruct (summary_status _) as [st|]; [|cbn; eauto].
    destruct (continue st); [destruct fuel|]; cbn; eauto.
  - intros evs new Hg. rewrite poll_unfold, Hg. unfold pass_trace.
    rewrite isEqual_null_report.
    destruct (summary_status new) as [st|e] eqn:Hs.
    + rewrite continue_terminal.
      destruct (terminal st) eqn:Ht; cbn [negb].
      * exists []. cbn [fst snd]. split; [reflexivity|]. now intros st' _ _.
      * destruct fuel as [|fuel]; cbn [fst snd].
        -- exists []. split; [reflexivity|].
           intros st' H. injection H as <-. congruence.
        -- eexists. split.
           ++ cbn [app]. rewrite <- List.app_assoc. reflexivity.
           ++ intros st' H. injection H as <-. congruence.
    + exists []. cbn [fst snd]. split; [reflexivity|]. intros st' H. discriminate.
Qed.

Lemma poll_first_pass_demo :
  exists rest,
    (poll demo_world DEV demo_gServers (PNum 100) 5 0 None).1
    = Sleep 15
      :: [GetChildActivities DEV (PNum 100); GetActivities DEV (PNum 100)]
      ++ [Log Info "The deployment's current status is:";
          PrintTable (demo_report 0); Log Info "Deploying the software..."]
      ++ rest
    /\ (forall st, summary_status (demo_report 0) = Ok st ->
          terminal st = true ->
          rest = []
          /\ (poll demo_world DEV demo_gServers (PNum 100) 5 0 None).2
             = Ret (demo_report 0)).
Proof.
  apply (proj2 (poll_first_pass demo_world DEV demo_gServers (PNum 100) 5)
           [GetChildActivities DEV (PNum 100); GetActivities DEV (PNum 100)]
           (demo_report 0)).
  vm_compute. reflexivity.
Defined.

(** ** processCommandLineArgs *)

Example parseInt_examples :
  parseInt "28" = Num 28 /\ parseInt "0" = Num 0 /\ parseInt "-0" = Num 0
  /\ parseInt "abc" = NaN /\ parseInt EmptyString = NaN
  /\ parseInt "12px" = Num 12 /\ parseInt " 0x1f" = Num 31
  /\ parseInt "-7" = Num (-7) /\ parseInt "000" = Num 0
  /\ parseInt "9007199254740991" = Num 9007199254740991
  /\ parseInt "9007199254740993" = Num 9007199254740992
  /\ parseInt "9007199254740995" = Num 9007199254740996
  /\ parseInt "0x20000000000003" = Num 9007199254740996
  /\ parseInt "1000000000000000000001" = Num (10 ^ 21).
Proof. repeat split; vm_compute; reflexivity. Qed.

(** The function is the test [!program.script || !program.tag] followed by
    the assignments. *)
Lemma processCommandLineArgs_run (filename : string) (a : argv) :
  processCommandLineArgs filename a =
  if not_script (program_script a) || not_tag (program_tag a)
  then ([Help], Exit help_exit_code)
  else
    match program_script a, program_tag a with
    | Some script, Some tag =>
      let g := {| gLandscapeActivityGroup := tag;
                  gLandscapeScript := script;
                  gLandscapeCmd := if negb (arg_dev a) then TST else DEV |} in
      ([Log Info (running_message filename g)], Ret g)
    | _, _ => ([Help], Exit help_exit_code)
    end.
Proof.
  unfold processCommandLineArgs.
  destruct (program_script a) as [[|n]|], (program_tag a) as [t|];
    try reflexivity.
  cbn. destruct (n =? 0); reflexivity.
Qed.

Lemma processCommandLineArgs_help (filename : string) (a : argv) :
  not_script (program_script a) || not_tag (program_tag a) = true ->
  processCommandLineArgs filename a = ([Help], Exit help_exit_code).
Proof. intros H. now rewrite processCommandLineArgs_run, H. Qed.

Lemma processCommandLineArgs_proceeds (filename : string) (a : argv) :
  not_script (program_script a) || not_tag (program_tag a) = false ->
  exists s n tag,
    arg_script a = Some s /\ parseInt s = Num n /\ n <> 0
    /\ arg_tag a = Some tag /\ tag <> EmptyString.
Proof.
  unfold program_script, program_tag. intros H.
  apply orb_false_iff in H as [Hs Ht].
  destruct (arg_script a) as [s|]; [|discriminate].
  destruct (arg_tag a) as [tag|]; [|discriminate].
  cbn in Hs, Ht. destruct (parseInt s) as [|n] eqn:Hp; [discriminate|].
  exists s, n, tag. repeat split; auto.
  - intros ->. discriminate.
  - intros ->. discriminate.
Qed.

Lemma main_help (w : World) (filename : string) (a : argv) (fuel : nat) :
  processCommandLineArgs filename a = ([Help], Exit help_exit_code) ->
  Deploy.main w filename a fuel = ([Help], Exit help_exit_code)
  /\ LandscapeDeploy.main w filename a fuel = ([Help], Exit help_exit_code).
Proof.
  intros H. unfold Deploy.main, LandscapeDeploy.main. rewrite H. now split.
Qed.

(** A run without [--script]: the process exits with status 0. *)
Lemma missing_script_exits_zero :
  (Deploy.main demo_world "deploy.js"
     {| arg_dev := false; arg_script := None; arg_tag := Some "ply-servers" |}
     5).2 = Exit 0
  /\ (LandscapeDeploy.main demo_world "landscape-deploy.js"
        {| arg_dev := false; arg_script := None; arg_tag := Some "ply-servers" |}
        5).2 = Exit 0
  /\ ~ (exists code, code <> 0 /\
          (Deploy.main demo_world "deploy.js"
             {| arg_dev := false; arg_script := None;
                arg_tag := Some "ply-servers" |} 5).2 = Exit code).
Proof.
  split; [reflexivity|]. split; [reflexivity|].
  intros (code & Hne & H). vm_compute in H. injection H as <-. now apply Hne.
Qed.

(** C6, as the code has it.  When [--script] or [--tag] is missing, the run
    of either revision is the help text followed by the end of the process
    with status 0 (the status [program.help()] of commander 2.x ends with):
    nothing else happens, and so no remote call is made. *)
Theorem missing_flag_prints_help (w : World) (filename : string) (a : argv)
    (fuel : nat) :
  arg_script a = None \/ arg_tag a = None ->
  Deploy.main w filename a fuel = ([Help], Exit 0)
  /\ LandscapeDeploy.main w filename a fuel = ([Help], Exit 0)
  /\ count_events is_remote (Deploy.main w filename a fuel).1 = O
  /\ count_events is_remote (LandscapeDeploy.main w filename a fuel).1 = O.
Proof.
  intros H.
  assert (processCommandLineArgs filename a = ([Help], Exit help_exit_code)) as Hh.
  { apply processCommandLineArgs_help. unfold program_script, program_tag.
    destruct H as [-> | ->]; [reflexivity|]. apply orb_true_r. }
  destruct (main_help w filename a fuel Hh) as [-> ->]. repeat split.
Qed.

Lemma missing_flag_prints_help_demo :
  Deploy.main demo_world "deploy.js"
    {| arg_dev := false; arg_script := Some "28"; arg_tag := None |} 5
  = ([Help], Exit 0)
  /\ LandscapeDeploy.main demo_world "deploy.js"
       {| arg_dev := false; arg_script := Some "28"; arg_tag := None |} 5
     = ([Help], Exit 0)
  /\ count_events is_remote
       (Deploy.main demo_world "deploy.js"
          {| arg_dev := false; arg_script := Some "28"; arg_tag := None |} 5).1
     = O
  /\ count_events is_remote
       (LandscapeDeploy.main demo_world "deploy.js"
          {| arg_dev := false; arg_script := Some "28"; arg_tag := None |} 5).1
     = O.
Proof.
  apply (missing_flag_prints_help demo_world "deploy.js"
           {| arg_dev := false; arg_script := Some "28"; arg_tag := None |} 5).
  right. reflexivity.
Defined.

(** C9.  When the value given to [--script] parses to 0 or to NaN, the run
    of either revision is the run without [--script]: the help text and the
    end of the process.  And an event of a run is a remote call only if
    [--script] was given a value that parses to a number other than 0 and
    [--tag] a string other than the empty one. *)
Theorem script_zero_or_NaN_is_missing (w : World) (filename : string)
    (a : argv) (fuel : nat) :
  (forall s, arg_script a = Some s -> parseInt s = NaN \/ parseInt s = Num 0 ->
     let a' := {| arg_dev := arg_dev a; arg_script := None;
                  arg_tag := arg_tag a |} in
     Deploy.main w filename a fuel = ([Help], Exit help_exit_code)
     /\ Deploy.main w filename a fuel = Deploy.main w filename a' fuel
     /\ LandscapeDeploy.main w filename a fuel = ([Help], Exit help_exit_code)
     /\ LandscapeDeploy.main w filename a fuel
        = LandscapeDeploy.main w filename a' fuel)
  /\ (forall e,
        In e (Deploy.main w filename a fuel).1
        \/ In e (LandscapeDeploy.main w filename a fuel).1 ->
        is_remote e = true ->
        exists s n tag,
          arg_script a = Some s /\ parseInt s = Num n /\ n <> 0
          /\ arg_tag a = Some tag /\ tag <> EmptyString).
Proof.
  split.
  - intros s Hs Hp a'.
    assert (processCommandLineArgs filename a = ([Help], Exit help_exit_code))
      as Hh.
    { apply processCommandLineArgs_help. unfold program_script. rewrite Hs.
      cbn. now destruct Hp as [-> | ->]. }
    assert (processCommandLineArgs filename a' = ([Help], Exit help_exit_code))
      as Hh' by reflexivity.
    destruct (main_help w filename a fuel Hh) as [-> ->].
    destruct (main_help w filename a' fuel Hh') as [-> ->]. repeat split.
  - intros e Hin Hr.
    destruct (not_script (program_script a) || not_tag (program_tag a)) eqn:Hc.
    + destruct (main_help w filename a fuel
                  (processCommandLineArgs_help filename a Hc)) as [H1 H2].
      rewrite H1, H2 in Hin. cbn in Hin.
      destruct Hin as [[<- | []] | [<- | []]]; discriminate.
    + now apply processCommandLineArgs_proceeds.
Qed.

Lemma script_zero_or_NaN_is_missing_demo :
  Deploy.main demo_world "deploy.js"
    {| arg_dev := false; arg_script := Some "0"; arg_tag := Some "ply-servers" |}
    5 = ([Help], Exit help_exit_code)
  /\ LandscapeDeploy.main demo_world "deploy.js"
       {| arg_dev := false; arg_script := Some "zero";
          arg_tag := Some "ply-servers" |} 5
     = ([Help], Exit help_exit_code).
Proof.
  split.
  - apply (proj1 (script_zero_or_NaN_is_missing demo_world "deploy.js"
             {| arg_dev := false; arg_script := Some "0";
                arg_tag := Some "ply-servers" |} 5) "0" eq_refl).
    right. reflexivity.
  - apply (proj1 (script_zero_or_NaN_is_missing demo_world "deploy.js"
             {| arg_dev := false; arg_script := Some "zero";
                arg_tag := Some "ply-servers" |} 5) "zero" eq_refl).
    left. reflexivity.
Defined.

(** ** The end of a run *)

Lemma count_events_none (P : event -> bool) (t : list event) :
  Forall (fun e => P e = false) t -> count_events P t = O.
Proof.
  unfold count_events. induction 1 as [|e t He _ IH]; [reflexivity|].
  cbn. now rewrite He.
Qed.

Lemma generate_no_completion (w : World) (i : instance) (srv : servers)
    (tick : nat) (id : prim) :
  count_events is_completion (generateDetailedActivityReport w i srv tick id).1
  = O.
Proof.
  rewrite generateDetailedActivityReport_run.
  destruct (getChildActivities w tick i id); [|reflexivity].
  destruct (rbind _ _); [|reflexivity].
  destruct (rbind _ _); reflexivity.
Qed.

Lemma pass_trace_no_completion (old : option report) (evs : list event)
    (new : report) :
  count_events is_completion evs = O ->
  count_events is_completion (pass_trace old evs new) = O.
Proof.
  intros H. unfold pass_trace.
  change (Sleep 15 :: ?l) with ([Sleep 15] ++ l).
  rewrite !count_events_app, H. now destruct (isEqual old (Some new)).
Qed.

Lemma poll_no_completion (w : World) (i : instance) (srv : servers) (id : prim)
    (fuel tick : nat) (old : option report) :
  count_events is_completion (poll w i srv id fuel tick old).1 = O.
Proof.
  revert tick old. induction fuel as [|fuel IH]; intros tick old;
    rewrite poll_unfold;
    pose proof (generate_no_completion w i srv tick id) as Hz;
    destruct (generateDetailedActivityReport w i srv tick id)
      as [evs [new|c|e|]]; cbn [fst] in Hz;
    try (change (Sleep 15 :: evs) with ([Sleep 15] ++ evs); cbn [fst];
         now rewrite count_events_app, Hz);
    (destruct (summary_status new) as [st|e];
     [destruct (continue st)|]); cbn [fst];
    rewrite ?count_events_app, ?IH; now rewrite pass_trace_no_completion.
Qed.

(** The loop returns only a report whose summary status is one of the
    three. *)
Lemma poll_returns_terminal (w : World) (i : instance) (srv : servers)
    (id : prim) (fuel tick : nat) (old : option report) (rep : report) :
  (poll w i srv id fuel tick old).2 = Ret rep ->
  exists st, summary_status rep = Ok st /\ terminal st = true.
Proof.
  revert tick old. induction fuel as [|fuel IH]; intros tick old;
    rewrite poll_unfold;
    destruct (generateDetailedActivityReport w i srv tick id)
      as [evs [new|c|e|]]; try discriminate;
    (destruct (summary_status new) as [st|e] eqn:Hs; [|discriminate]);
    rewrite continue_terminal; destruct (terminal st) eqn:Ht; cbn [negb snd];
    try discriminate; try (intros H; injection H as <-; eauto).
  apply IH.
Qed.

Lemma terminal_cases (st : prim) :
  terminal st = true <->
  st = PStr "succeeded" \/ st = PStr "failed" \/ st = PStr "canceled".
Proof.
  unfold terminal, status_is. split.
  - destruct st as [| | | |s| | |]; try discriminate. intros H.
    repeat (apply orb_true_iff in H as [H|H]);
      apply String.eqb_eq in H; subst; auto.
  - intros [->|[->| ->]]; reflexivity.
Qed.

Lemma prefix_app (a s : string) : String.prefix a (a +:+ s) = true.
Proof.
  induction a as [|c a IH]; [now destruct s|].
  rewrite app_cons. cbn [String.prefix].
  destruct (ascii_dec c c); [exact IH | contradiction].
Qed.

(** In the later revision a notification that cannot be delivered ends the
    run where it stands.  Here the loop returns the report of the second
    poll, whose summary status is succeeded, and Slack refuses the first
    notification of the end: the run of the later revision ends with the
    exception of [execSync] and has no message of the end, where the first
    revision returns. *)
Lemma undelivered_notification_is_fatal :
  poll deaf_world DEV demo_gServers (PNum 100) 5 0 None
  = ((poll demo_world DEV demo_gServers (PNum 100) 5 0 None).1,
     Ret (demo_report 1))
  /\ summary_status (demo_report 1) = Ok (PStr "succeeded")
  /\ (LandscapeDeploy.main deaf_world "deploy.js" demo_argv 5).2
     = Thrown CallFailed
  /\ count_events is_completion
       (LandscapeDeploy.main deaf_world "deploy.js" demo_argv 5).1 = O
  /\ (Deploy.main deaf_world "deploy.js" demo_argv 5).2 = Ret tt.
Proof. repeat split; vm_compute; reflexivity. Qed.

(** C7, as the code has it.  Let the arguments be accepted, the computers
    be fetched, the script be dispatched and the loop return the report
    [rep].  Then the status [st] of the summary record of [rep] is
    succeeded, failed or canceled, and the run of the first revision ends
    after the events of the loop with one message, "Deployment completed
    with status 'st'.", at level info when [st] is succeeded or canceled
    and at level error otherwise; it is the only such message of the run.
    The later revision posts its two notifications of the end between the
    loop and the message: when both are delivered its run ends with that
    one message in the same way, and when one of them is not (the
    [execSync] of curl throws) the run ends there with the exception and
    has no message of the end. *)
Theorem completion_logged_once (w : World) (filename : string) (a : argv)
    (fuel : nat) (g : globals) (srv : servers) (parent : activity)
    (t0 t1 tp : list event) (rep : report) :
  processCommandLineArgs filename a = (t0, Ret g) ->
  getServers w (gLandscapeCmd g) (gLandscapeActivityGroup g) = (t1, Ret srv) ->
  executeScript w (gLandscapeCmd g) (gLandscapeActivityGroup g)
                (gLandscapeScript g) = Ok parent ->
  poll w (gLandscapeCmd g) srv (act_id parent) fuel 0 None = (tp, Ret rep) ->
  exists st,
    summary_status rep = Ok st
    /\ (st = PStr "succeeded" \/ st = PStr "failed" \/ st = PStr "canceled")
    /\ let final :=
         Log (if status_is st "succeeded" || status_is st "canceled"
              then Info else Error)
             ("Deployment completed with status '" +:+ ToString st +:+ "'.") in
       (exists pre,
          Deploy.main w filename a fuel = (pre ++ tp ++ [final], Ret tt)
          /\ count_events is_completion (pre ++ tp ++ [final]) = 1%nat)
       /\ (postSlack w (LandscapeDeploy.deploying_text g) = Ok tt ->
           postSlack w (LandscapeDeploy.finished_text g) = Ok tt ->
           postSlack w (convertDetailedActivityReportToText rep) = Ok tt ->
           exists pre,
             LandscapeDeploy.main w filename a fuel
             = (pre ++ tp
                ++ [Slack (LandscapeDeploy.finished_text g);
                    Slack (convertDetailedActivityReportToText rep); final],
                Ret tt)
             /\ count_events is_completion
                  (pre ++ tp
                   ++ [Slack (LandscapeDeploy.finished_text g);
                       Slack (convertDetailedActivityReportToText rep); final])
                = 1%nat)
       /\ (postSlack w (LandscapeDeploy.deploying_text g) = Ok tt ->
           forall e,
             postSlack w (LandscapeDeploy.finished_text g) = Throw e
             \/ (postSlack w (LandscapeDeploy.finished_text g) = Ok tt
                 /\ postSlack w (convertDetailedActivityReportToText rep)
                    = Throw e) ->
             (LandscapeDeploy.main w filename a fuel).2 = Thrown e
             /\ count_events is_completion
                  (LandscapeDeploy.main w filename a fuel).1 = O).
Proof.
  intros H0 H1 H2 Hp.
  destruct (poll_returns_terminal w (gLandscapeCmd g) srv (act_id parent)
              fuel 0 None rep) as (st & Hs & Ht); [now rewrite Hp|].
  pose proof (poll_no_completion w (gLandscapeCmd g) srv (act_id parent)
                fuel 0 None) as Hz. rewrite Hp in Hz. cbn [fst] in Hz.
  assert (t0 = [Log Info (running_message filename g)]) as ->.
  { rewrite processCommandLineArgs_run in H0.
    destruct (_ || _); [discriminate|].
    destruct (program_script a), (program_tag a); try discriminate.
    cbn zeta in H0. now injection H0 as <- <-. }
  assert (t1 = [GetComputers (gLandscapeCmd g) (gLandscapeActivityGroup g)])
    as ->.
  { unfold getServers in H1. revert H1. run_step.
    destruct (getComputers w _ _); [|discriminate].
    intros H1. now injection H1 as <- _. }
  assert (count_events is_completion
            [Log (if status_is st "succeeded" || status_is st "canceled"
                  then Info else Error)
                 ("Deployment completed with status '" +:+ ToString st +:+ "'.")]
          = 1%nat) as Hf.
  { unfold count_events. cbn [List.filter is_completion].
    now rewrite prefix_app. }
  exists st. split; [assumption|]. split; [now apply terminal_cases|].
  cbn zeta. split; [|split].
  - exists ([Log Info (running_message filename g);
             Log Info (getting_message g);
             GetComputers (gLandscapeCmd g) (gLandscapeActivityGroup g);
             Log Info (executing_message g);
             ExecuteScript (gLandscapeCmd g) (gLandscapeActivityGroup g)
                           (gLandscapeScript g)]).
    split.
    + unfold Deploy.main, log_completion. rewrite H0. run_step.
      rewrite H1. run_step. rewrite H2. run_step. rewrite Hp. run_step.
      rewrite Hs. run_step.
      destruct (status_is st "succeeded" || status_is st "canceled");
        run_step; cbn [app]; now rewrite ?List.app_nil_r.
    + rewrite !count_events_app, Hz, Hf. reflexivity.
  - intros S1 S2 S3.
    exists ([Log Info (running_message filename g);
             Log Info (getting_message g);
             GetComputers (gLandscapeCmd g) (gLandscapeActivityGroup g);
             Log Info (executing_message g);
             Slack (LandscapeDeploy.deploying_text g);
             ExecuteScript (gLandscapeCmd g) (gLandscapeActivityGroup g)
                           (gLandscapeScript g)]).
    split.
    + unfold LandscapeDeploy.main, LandscapeDeploy.postSlackNotification,
        log_completion.
      rewrite H0. run_step. rewrite H1. run_step. rewrite S1. run_step.
      rewrite H2. run_step. rewrite Hp. run_step. rewrite S2. run_step.
      rewrite S3. run_step. rewrite Hs. run_step.
      destruct (status_is st "succeeded" || status_is st "canceled");
        run_step; cbn [app]; now rewrite ?List.app_nil_r.
    + change [Slack (LandscapeDeploy.finished_text g);
              Slack (convertDetailedActivityReportToText rep);
              ?f] with
        ([Slack (LandscapeDeploy.finished_text g);
          Slack (convertDetailedActivityReportToText rep)] ++ [f]).
      rewrite !count_events_app, Hz, Hf. reflexivity.
  - intros S1 e He.
    unfold LandscapeDeploy.main, LandscapeDeploy.postSlackNotification.
    rewrite H0. run_step. rewrite H1. run_step. rewrite S1. run_step.
    rewrite H2. run_step. rewrite Hp. run_step.
    destruct He as [S2|[S2 S3]]; rewrite S2; run_step;
      [|rewrite S3; run_step]; cbn [app]; (split; [reflexivity|]);
      change (?x1 :: ?x2 :: ?x3 :: ?x4 :: ?x5 :: ?x6 :: tp ++ ?l)
        with ([x1; x2; x3; x4; x5; x6] ++ tp ++ l);
      rewrite !count_events_app, Hz; reflexivity.
Qed.

Lemma completion_logged_once_demo :
  exists st,
    summary_status (demo_report 1) = Ok st
    /\ (st = PStr "succeeded" \/ st = PStr "failed" \/ st = PStr "canceled")
    /\ let tp := (poll demo_world DEV demo_gServers (PNum 100) 5 0 None).1 in
       let final :=
         Log (if status_is st "succeeded" || status_is st "canceled"
              then Info else Error)
             ("Deployment completed with status '" +:+ ToString st +:+ "'.") in
       (exists pre,
          Deploy.main demo_world "deploy.js" demo_argv 5
          = (pre ++ tp ++ [final], Ret tt)
          /\ count_events is_completion (pre ++ tp ++ [final]) = 1%nat)
       /\ (postSlack demo_world (LandscapeDeploy.deploying_text demo_globals)
           = Ok tt ->
           postSlack demo_world (LandscapeDeploy.finished_text demo_globals)
           = Ok tt ->
           postSlack demo_world
             (convertDetailedActivityReportToText (demo_report 1)) = Ok tt ->
           exists pre,
             LandscapeDeploy.main demo_world "deploy.js" demo_argv 5
             = (pre ++ tp
                ++ [Slack (LandscapeDeploy.finished_text demo_globals);
                    Slack (convertDetailedActivityReportToText (demo_report 1));
                    final],
                Ret tt)
             /\ count_events is_completion
                  (pre ++ tp
                   ++ [Slack (LandscapeDeploy.finished_text demo_globals);
                       Slack (convertDetailedActivityReportToText
                                (demo_report 1));
                       final])
                = 1%nat)
       /\ (postSlack demo_world (LandscapeDeploy.deploying_text demo_globals)
           = Ok tt ->
           forall e,
             postSlack demo_world (LandscapeDeploy.finished_text demo_globals)
             = Throw e
             \/ (postSlack demo_world
                   (LandscapeDeploy.finished_text demo_globals) = Ok tt
                 /\ postSlack demo_world
                      (convertDetailedActivityReportToText (demo_report 1))
                    = Throw e) ->
             (LandscapeDeploy.main demo_world "deploy.js" demo_argv 5).2
             = Thrown e
             /\ count_events is_completion
                  (LandscapeDeploy.main demo_world "deploy.js" demo_argv 5).1
                = O).
Proof.
  apply (completion_logged_once demo_world "deploy.js" demo_argv 5
           demo_globals demo_gServers (demo_parent 0)
           [Log Info (running_message "deploy.js" demo_globals)]
           [GetComputers DEV "ply-servers"]
           (poll demo_world DEV demo_gServers (PNum 100) 5 0 None).1
           (demo_report 1));
    vm_compute; reflexivity.
Defined.

Example demo_run :
  (Deploy.main demo_world "deploy.js" demo_argv 5).2 = Ret tt
  /\ List.filter is_remote (Deploy.main demo_world "deploy.js" demo_argv 5).1
     = [ GetComputers DEV "ply-servers";
         ExecuteScript DEV "ply-servers" (Num 28);
         GetChildActivities DEV (PNum 100); GetActivities DEV (PNum 100);
         GetChildActivities DEV (PNum 100); GetActivities DEV (PNum 100) ]
  /\ last (LandscapeDeploy.main demo_world "deploy.js" demo_argv 5).1
     = Some (Log Info "Deployment completed with status 'succeeded'.")
  /\ count_events (fun e => match e with Slack _ => true | _ => false end)
       (LandscapeDeploy.main demo_world "deploy.js" demo_argv 5).1 = 3%nat.
Proof. repeat split; vm_compute; reflexivity. Qed.

(* ================================================================== *)
(** * Part III: further properties of the driver                       *)
(* ================================================================== *)

(** ** getServers *)

Lemma fold_insert_lookup (l : list server) (m : servers) (k : string) :
  fold_left (fun (m : servers) srv => <[ToString (server_id srv) := srv]> m) l m
  !! k
  = match last_match (fun srv => String.eqb (server_key srv) k) l with
    | Some srv => Some srv
    | None => m !! k
    end.
Proof.
  revert m. induction l as [|a l IH]; intros m; cbn [fold_left last_match];
    [reflexivity|].
  rewrite IH. destruct (last_match _ l); [reflexivity|].
  unfold server_key. destruct (String.eqb_spec (ToString (server_id a)) k) as [<-|Hne].
  - apply lookup_insert_eq.
  - now apply lookup_insert_ne.
Qed.



(** ** The child records *)

Lemma forEach_child_record_ok (m : servers) (children : list activity)
    (recs : list record) :
  forEach (child_record m) children = Ok recs ->
  Forall2 (fun c r =>
             record_fields r = child_fields c
             /\ match m !! child_key c with
                | Some srv => computer_name r = hostname srv
                | None =>
                  inherited (child_key c) = true /\ computer_name r = PUndefined
                end)
          children recs.
Proof.
  revert recs. induction children as [|c children IH]; intros recs H;
    cbn [forEach] in H.
  - injection H as <-. constructor.
  - unfold child_record at 1 in H. cbv zeta in H. fold (child_key c) in H.
    destruct (m !! child_key c) as [srv|] eqn:Hk;
      [|destruct (inherited (child_key c)) eqn:Hi; [|discriminate]];
      cbn [rbind] in H;
      (destruct (forEach (child_record m) children) as [rs|]; [|discriminate]);
      cbn in H; injection H as <-; (constructor; [|now apply IH]);
      rewrite ?Hk; auto.
Qed.

Lemma forEach_child_record_unknown (m : servers) (children : list activity) :
  Exists (fun c => m !! child_key c = None /\ inherited (child_key c) = false)
         children ->
  forEach (child_record m) children = Throw TypeError.
Proof.
  induction 1 as [c children [Hc Hi]|c children _ IH]; cbn [forEach].
  - unfold child_record. cbv zeta. fold (child_key c). now rewrite Hc, Hi.
  - rewrite IH. unfold child_record. cbv zeta.
    destruct (m !! _); [reflexivity|]. now destruct (inherited _).
Qed.

Lemma forEach_child_record_known (m : servers) (children : list activity) :
  Forall (fun c => is_Some (m !! child_key c)) children ->
  exists recs, forEach (child_record m) children = Ok recs.
Proof.
  induction 1 as [|c children [srv Hc] _ [recs IH]]; cbn [forEach]; [eauto|].
  rewrite IH. unfold child_record. cbv zeta. fold (child_key c). rewrite Hc.
  cbn. eauto.
Qed.

(** ** The comparator and the sort, further *)

Lemma has_string_name_dec (r : record) :
  has_string_name r \/ ~ has_string_name r.
Proof.
  unfold has_string_name. destruct (computer_name r) as [| | | |s| | |]; eauto;
    right; intros [s' H]; discriminate.
Qed.

Lemma lower_name_ok (r : record) :
  has_string_name r <-> exists l, lower_name r = Ok l.
Proof.
  unfold has_string_name, lower_name.
  destruct (computer_name r) as [| | | |s| | |]; split; intros [x H];
    try discriminate; eauto.
Qed.

Lemma lower_name_throw (r : record) (e : exn) :
  lower_name r = Throw e -> e = TypeError /\ ~ has_string_name r.
Proof.
  unfold has_string_name, lower_name.
  destruct (computer_name r) as [| | | |s| | |]; intros H; try discriminate;
    injection H as <-; (split; [reflexivity|]); intros [s' H]; discriminate.
Qed.

Lemma compare_records_throw (a b : record) (e : exn) :
  compare_records a b = Throw e ->
  e = TypeError /\ (~ has_string_name a \/ ~ has_string_name b).
Proof.
  unfold compare_records.
  destruct (lower_name a) as [la|ea] eqn:Ea.
  - destruct (lower_name b) as [lb|eb] eqn:Eb; cbn; [discriminate|].
    intros H. injection H as <-.
    destruct (lower_name_throw _ _ Eb). auto.
  - cbn. intros H. injection H as <-. destruct (lower_name_throw _ _ Ea). auto.
Qed.

Lemma compare_records_strings (a b : record) :
  has_string_name a -> has_string_name b ->
  exists c, compare_records a b = Ok c.
Proof.
  intros [la Ha]%lower_name_ok [lb Hb]%lower_name_ok.
  unfold compare_records. rewrite Ha, Hb. cbn. eauto.
Qed.

(** The first comparison of an insertion reads the name of the element
    inserted and the name of the first element. *)
Lemma sort_insert_first (x y : record) (l s : list record) :
  sort_insert compare_records x (y :: l) = Ok s ->
  has_string_name x /\ has_string_name y.
Proof.
  cbn [sort_insert]. destruct (compare_records x y) as [c|] eqn:Hc;
    [|discriminate].
  intros _. destruct (compare_records_inv _ _ _ Hc) as (la & lb & Ha & Hb & _).
  split; apply lower_name_ok; eauto.
Qed.

Lemma sort_insert_throw (x : record) (l : list record) (e : exn) :
  sort_insert compare_records x l = Throw e -> e = TypeError.
Proof.
  induction l as [|y l IH]; cbn [sort_insert]; [discriminate|].
  destruct (compare_records x y) as [c|e'] eqn:Hc; cbn [rbind].
  - destruct (c <=? 0); [discriminate|].
    destruct (sort_insert compare_records x l); [discriminate|].
    cbn. intros H. injection H as <-. now apply IH.
  - intros H. injection H as <-. now destruct (compare_records_throw _ _ _ Hc).
Qed.

Lemma sort_throw (l : list record) (e : exn) :
  sort compare_records l = Throw e -> e = TypeError.
Proof.
  induction l as [|x l IH]; cbn [sort]; [discriminate|].
  destruct (sort compare_records l) as [s|e']; cbn [rbind].
  - apply sort_insert_throw.
  - intros H. injection H as <-. now apply IH.
Qed.

Lemma sort_ok_strings (l s : list record) :
  sort compare_records l = Ok s -> (2 <= length l)%nat ->
  Forall has_string_name l.
Proof.
  revert s. induction l as [|x l IH]; intros s H Hlen; [cbn in Hlen; lia|].
  cbn [sort] in H.
  destruct (sort compare_records l) as [s0|] eqn:Hs0; [|discriminate].
  cbn [rbind] in H. destruct (sort_sorted _ _ Hs0) as [Hp _ _].
  destruct l as [|y l]; [cbn in Hlen; lia|].
  destruct s0 as [|z s0];
    [symmetry in Hp; apply Permutation_nil in Hp; discriminate|].
  destruct (sort_insert_first _ _ _ _ H) as [Hx Hz].
  constructor; [assumption|].
  destruct l as [|y' l].
  - apply Permutation_length_1_inv in Hp. injection Hp as -> ->.
    now constructor.
  - apply (IH _ eq_refl). cbn. lia.
Qed.

(** X4.  The sort of the report returns in two cases only: the report has
    at most one record (the comparator is not called), or every record has
    a string for a name.  Otherwise, that is with two records or more of
    which one has a name that is not a string (a computer without a
    hostname), it throws a TypeError, from [toLowerCase]. *)
Theorem sort_returns_iff (l : list record) :
  ((exists s, sort compare_records l = Ok s)
   <-> (length l <= 1)%nat \/ Forall has_string_name l)
  /\ (sort compare_records l = Throw TypeError
      <-> (2 <= length l)%nat /\ Exists (fun r => ~ has_string_name r) l).
Proof.
  assert (Hok : (exists s, sort compare_records l = Ok s)
                <-> (length l <= 1)%nat \/ Forall has_string_name l).
  { split.
    - intros [s Hs]. destruct (le_lt_dec (length l) 1) as [|Hlt]; [now left|].
      right. eapply sort_ok_strings; [exact Hs | lia].
    - intros [Hlen|Hall].
      + destruct l as [|x [|y l]]; cbn in Hlen; try lia; cbn; eauto.
      + destruct (sort_total l) as [s Hs]; eauto. }
  split; [exact Hok|]. split.
  - intros Ht.
    destruct (le_lt_dec (length l) 1) as [Hlen|Hlt].
    { destruct (proj2 Hok (or_introl Hlen)) as [s Hs]. congruence. }
    split; [lia|].
    assert (~ Forall has_string_name l) as Hn.
    { intros Hall. destruct (proj2 Hok (or_intror Hall)) as [s Hs]. congruence. }
    clear -Hn. induction l as [|x l IH]; [destruct Hn; constructor|].
    destruct (has_string_name_dec x) as [Hx|Hx]; [|now left].
    right. apply IH. intros Hall. apply Hn. now constructor.
  - intros [Hlen Hex].
    destruct (sort compare_records l) as [s|e] eqn:Hs.
    + pose proof (sort_ok_strings _ _ Hs Hlen) as Hall.
      apply List.Exists_exists in Hex as (r & Hin & Hr).
      rewrite List.Forall_forall in Hall. destruct (Hr (Hall _ Hin)).
    + now rewrite (sort_throw _ _ Hs).
Qed.



Lemma name_le_antisym (a b : record) :
  name_le a b -> name_le b a -> lower_name a = lower_name b.
Proof.
  intros (la & lb & Ha & Hb & H1) (lb' & la' & Hb' & Ha' & H2).
  rewrite Ha in Ha'. rewrite Hb in Hb'. injection Ha' as <-. injection Hb' as <-.
  rewrite Ha, Hb. f_equal. now apply String.leb_antisym.
Qed.

Lemma NoDup_map_inj_on {A B} (f : A -> B) (l : list A) (a b : A) :
  List.NoDup (map f l) -> In a l -> In b l -> f a = f b -> a = b.
Proof.
  induction l as [|x l IH]; cbn; [intros _ []|].
  intros Hn Ha Hb E. apply List.NoDup_cons_iff in Hn as [Hx Hn].
  destruct Ha as [->|Ha], Hb as [->|Hb]; auto.
  - destruct Hx. rewrite E. now apply List.in_map.
  - destruct Hx. rewrite <- E. now apply List.in_map.
Qed.

(** Two sorted arrangements of the same records are the same list when no
    two records share a key. *)
Lemma sorted_unique (s1 s2 : list record) :
  StronglySorted name_le s1 -> StronglySorted name_le s2 ->
  Permutation s1 s2 ->
  (forall a b, In a s1 -> In b s1 -> lower_name a = lower_name b -> a = b) ->
  s1 = s2.
Proof.
  revert s2. induction s1 as [|a s1 IH]; intros s2 H1 H2 Hp Hinj.
  - apply Permutation_nil in Hp. now subst.
  - destruct s2 as [|b s2];
      [symmetry in Hp; apply Permutation_nil in Hp; discriminate|].
    apply StronglySorted_inv in H1 as [H1 Ha].
    apply StronglySorted_inv in H2 as [H2 Hb].
    rewrite List.Forall_forall in Ha, Hb.
    assert (a = b) as ->.
    { assert (In b (a :: s1)) as Hin_b
        by (eapply Permutation_in; [symmetry; exact Hp | now left]).
      assert (In a (b :: s2)) as Hin_a
        by (eapply Permutation_in; [exact Hp | now left]).
      destruct Hin_b as [->|Hin_b]; [reflexivity|].
      destruct Hin_a as [->|Hin_a]; [reflexivity|].
      apply Hinj; [now left | now right |].
      apply name_le_antisym; auto. }
    f_equal. apply IH; auto.
    + eapply Permutation_cons_inv; exact Hp.
    + intros x y Hx Hy. apply Hinj; now right.
Qed.

(** X6.  The order in which the API lists the child activities does not
    matter when no two records have the same name in lower case: two
    arrays with the same records in any order are sorted into the same
    array, or the sort throws on both. *)
Theorem sort_order_independent (l1 l2 : list record) :
  Permutation l1 l2 ->
  List.NoDup (map lower_name l1) ->
  sort compare_records l1 = sort compare_records l2.
Proof.
  intros Hp Hn.
  destruct (sort compare_records l1) as [s1|e1] eqn:H1;
    destruct (sort compare_records l2) as [s2|e2] eqn:H2.
  - destruct (sort_sorted _ _ H1) as [P1 S1 _].
    destruct (sort_sorted _ _ H2) as [P2 S2 _].
    f_equal. apply sorted_unique; auto.
    + now rewrite <- P1, Hp.
    + intros a b Ha Hb. apply (NoDup_map_inj_on lower_name l1); auto;
        eapply Permutation_in; try eassumption; now symmetry.
  - exfalso.
    destruct (le_lt_dec (length l1) 1) as [Hlen|Hlt].
    + rewrite (Permutation_length Hp) in Hlen.
      destruct l2 as [|x [|y l2]]; cbn in Hlen; try lia; discriminate.
    + pose proof (sort_ok_strings _ _ H1 ltac:(lia)) as Hall.
      destruct (sort_total l2) as [s2 Hs2]; [|congruence].
      eapply Permutation_Forall; eassumption.
  - exfalso.
    destruct (le_lt_dec (length l2) 1) as [Hlen|Hlt].
    + rewrite <- (Permutation_length Hp) in Hlen.
      destruct l1 as [|x [|y l1]]; cbn in Hlen; try lia; discriminate.
    + pose proof (sort_ok_strings _ _ H2 ltac:(lia)) as Hall.
      destruct (sort_total l1) as [s1 Hs1]; [|congruence].
      eapply Permutation_Forall; [symmetry|]; eassumption.
  - now rewrite (sort_throw _ _ H1), (sort_throw _ _ H2).
Qed.

Lemma sort_order_independent_hosts :
  sort compare_records
    [ Record_ (PStr "b-host") (PNum 1) (PNum 101) (PStr "queued");
      Record_ (PStr "A-host") (PNum 2) (PNum 102) (PStr "succeeded");
      Record_ (PStr "c-host") (PNum 3) (PNum 103) (PStr "failed") ]
  = sort compare_records
      [ Record_ (PStr "c-host") (PNum 3) (PNum 103) (PStr "failed");
        Record_ (PStr "b-host") (PNum 1) (PNum 101) (PStr "queued");
        Record_ (PStr "A-host") (PNum 2) (PNum 102) (PStr "succeeded") ].
Proof.
  apply sort_order_independent.
  - apply Permutation_cons_app with (l1 := [_]) (l2 := [_]).
    apply Permutation_cons_app with (l1 := [_]) (l2 := []). reflexivity.
  - repeat constructor; cbn; intros H;
      repeat (destruct H as [H|H]; [discriminate H|]); destruct H.
Defined.

Lemma name_le_compare (x y : record) :
  name_le x y -> exists c, compare_records x y = Ok c /\ (c <=? 0) = true.
Proof.
  intros (la & lb & Ha & Hb & Hle).
  destruct (compare_records_strings x y) as [c Hc];
    try (apply lower_name_ok; eauto).
  exists c. split; [assumption|].
  destruct (compare_records_inv _ _ _ Hc) as (la' & lb' & Ha' & Hb' & E).
  congruence.
Qed.

(** X7.  Sorting does not move the records of an array that is already in
    the order of the comparator; in particular sorting what the sort
    returned returns it again. *)
Theorem sort_keeps_sorted (l : list record) :
  (StronglySorted name_le l -> sort compare_records l = Ok l)
  /\ (forall s, sort compare_records l = Ok s -> sort compare_records s = Ok s).
Proof.
  assert (Hfix : forall l, StronglySorted name_le l ->
                           sort compare_records l = Ok l).
  { clear l. induction 1 as [|x l Hs IH Hx]; [reflexivity|].
    cbn [sort]. rewrite IH. cbn [rbind].
    destruct l as [|y l]; [reflexivity|].
    apply List.Forall_inv in Hx.
    destruct (name_le_compare _ _ Hx) as (c & Hc & Hle).
    cbn [sort_insert]. rewrite Hc. cbn [rbind]. now rewrite Hle. }
  split; [apply Hfix|].
  intros s Hs. apply Hfix. now destruct (sort_sorted _ _ Hs).
Qed.

(** ** The child records and the sort together *)

Lemma forEach_child_record_throw (m : servers) (children : list activity)
    (e : exn) :
  forEach (child_record m) children = Throw e -> e = TypeError.
Proof.
  induction children as [|c children IH]; cbn [forEach]; [discriminate|].
  unfold child_record at 1. cbv zeta.
  destruct (m !! _); [|destruct (inherited _)]; cbn [rbind];
    try (intros H; now injection H as <-);
    (destruct (forEach (child_record m) children); cbn [rbind];
     [discriminate | intros H; injection H as <-; now apply IH]).
Qed.

Lemma forEach_child_record_names (m : servers) (children : list activity)
    (recs : list record) :
  forEach (child_record m) children = Ok recs ->
  Forall (name_from m) recs
  /\ map record_fields recs = map child_fields children.
Proof.
  intros H. apply forEach_child_record_ok in H.
  induction H as [|c r cs rs [Hf Hm] _ [IH1 IH2]]; [split; [constructor|reflexivity]|].
  split; [constructor; [|exact IH1] | cbn; now rewrite Hf, IH2].
  unfold name_from. unfold record_fields, child_fields in Hf.
  injection Hf as -> _ _. exact Hm.
Qed.

(** X2.  A child activity on a computer that is not in [gServers], the
    object holding no computer under the key [__proto__].  When the key of
    such a child names no property at all, or when there are two child
    activities or more, the report generation throws a TypeError right
    after the query of the child activities, and the parent activity is
    not queried: the TypeError comes from reading the hostname of
    [undefined], or, when the key names an inherited property, from the
    comparator of the sort.  But a single child activity whose key names an
    inherited property (a computer id "constructor", say) goes through: the
    report is returned, with [undefined] for the name of the computer. *)
Theorem unknown_computer_is_fatal (w : World) (i : instance) (srv : servers)
    (tick : nat) (id : prim) (children : list activity) :
  getChildActivities w tick i id = Ok children ->
  srv !! "__proto__" = None ->
  (Exists (fun c => srv !! child_key c = None
                    /\ inherited (child_key c) = false) children ->
   generateDetailedActivityReport w i srv tick id
   = ([GetChildActivities i id], Thrown TypeError))
  /\ (Exists (fun c => srv !! child_key c = None) children ->
      (2 <= length children)%nat ->
      generateDetailedActivityReport w i srv tick id
      = ([GetChildActivities i id], Thrown TypeError))
  /\ (forall c parent rest,
        children = [c] ->
        srv !! child_key c = None ->
        inherited (child_key c) = true ->
        getActivities w tick i id = Ok (parent :: rest) ->
        generateDetailedActivityReport w i srv tick id
        = ([GetChildActivities i id; GetActivities i id],
           Ret [ {| computer_name := PUndefined;
                    computer_id := act_computer_id c;
                    activity_id := act_id c;
                    activity_status := act_activity_status c |};
                 summary_record parent ])).
Proof.
  intros Hc _. rewrite generateDetailedActivityReport_run, Hc.
  split; [|split].
  - intros Hex. now rewrite (forEach_child_record_unknown _ _ Hex).
  - intros Hex Hlen.
    destruct (forEach (child_record srv) children) as [recs|e] eqn:Hr; cbn [rbind].
    + pose proof (forEach_child_record_ok _ _ _ Hr) as HF.
      destruct (sort compare_records recs) as [s|e] eqn:Hs.
      * exfalso.
        assert (Forall has_string_name recs) as Hall.
        { eapply sort_ok_strings; [exact Hs|].
          now rewrite <- (Forall2_length _ _ _ HF). }
        clear -HF Hex Hall.
        induction HF as [|c r cs rs [_ Hm] _ IH]; [inversion Hex|].
        apply List.Forall_cons_iff in Hall as [[h Hh] Hall].
        apply List.Exists_cons in Hex as [Hex|Hex]; [|now apply IH].
        rewrite Hex in Hm. destruct Hm as [_ Hm]. congruence.
      * now rewrite (sort_throw _ _ Hs).
    + now rewrite (forEach_child_record_throw _ _ _ Hr).
  - intros c parent rest -> Hk Hi Hp. cbn [forEach]. unfold child_record.
    cbv zeta. fold (child_key c). rewrite Hk, Hi, Hp. reflexivity.
Qed.

Lemma unknown_computer_is_fatal_stray :
  generateDetailedActivityReport stray_world DEV demo_gServers 0 (PNum 100)
  = ([GetChildActivities DEV (PNum 100)], Thrown TypeError)
  /\ generateDetailedActivityReport inherited_world DEV demo_gServers 0 (PNum 100)
     = ([GetChildActivities DEV (PNum 100); GetActivities DEV (PNum 100)],
        Ret [ {| computer_name := PUndefined;
                 computer_id := PStr "constructor";
                 activity_id := PNum 109;
                 activity_status := PStr "queued" |};
              summary_record (demo_parent 0) ]).
Proof.
  split.
  - apply (proj1 (unknown_computer_is_fatal stray_world DEV demo_gServers 0
                    (PNum 100)
                    [ Activity (PNum 101) (PNum 1) (PStr "queued");
                      Activity (PNum 109) (PNum 9) (PStr "queued") ]
                    eq_refl eq_refl)).
    right. left. vm_compute. split; reflexivity.
  - apply (proj2 (proj2 (unknown_computer_is_fatal inherited_world DEV
                           demo_gServers 0 (PNum 100)
                           [ Activity (PNum 109) (PStr "constructor")
                                      (PStr "queued") ]
                           eq_refl eq_refl))
             (Activity (PNum 109) (PStr "constructor") (PStr "queued"))
             (demo_parent 0) []); reflexivity.
Defined.

(** X3.  A report that is returned, [gServers] holding no computer under
    the key [__proto__], has one record for each child activity and one
    more: every child activity is there exactly once with its own computer
    id, activity id and status (the records before the summary are, in
    these three fields, a permutation of the child activities); the name of
    each such record is the hostname [gServers] has for its computer, or
    [undefined] when the computer is not in [gServers] and its key names an
    inherited property, which happens for a single child activity only:
    with two child activities or more every computer is in [gServers] and
    has a string for a hostname.  The report is never empty, so its summary
    status can always be read and is the status of the first parent
    answered. *)
Theorem report_holds_every_child_once (w : World) (i : instance) (srv : servers)
    (tick : nat) (id : prim) (rep : report) :
  srv !! "__proto__" = None ->
  (generateDetailedActivityReport w i srv tick id).2 = Ret rep ->
  exists children body parent rest,
    getChildActivities w tick i id = Ok children
    /\ getActivities w tick i id = Ok (parent :: rest)
    /\ rep = body ++ [summary_record parent]
    /\ length rep = S (length children)
    /\ Permutation (map child_fields children) (map record_fields body)
    /\ Forall (name_from srv) body
    /\ ((2 <= length children)%nat ->
        Forall (fun r =>
                  exists s h, srv !! ToString (computer_id r) = Some s
                              /\ hostname s = PStr h
                              /\ computer_name r = PStr h) body)
    /\ summary_status rep = Ok (act_activity_status parent).
Proof.
  intros _. rewrite generateDetailedActivityReport_run.
  destruct (getChildActivities w tick i id) as [children|] eqn:Hc;
    [|discriminate].
  destruct (forEach (child_record srv) children) as [recs|] eqn:Hr;
    [|discriminate].
  cbn [rbind].
  destruct (sort compare_records recs) as [body|] eqn:Hs; [|discriminate].
  destruct (getActivities w tick i id) as [[|parent rest]|] eqn:Ha;
    try discriminate.
  cbn. intros H. injection H as <-.
  destruct (sort_sorted _ _ Hs) as [Hp _ _].
  destruct (forEach_child_record_names _ _ _ Hr) as [Hnames Hfields].
  assert (length recs = length children) as Hlen.
  { rewrite <- (length_map record_fields), Hfields. apply length_map. }
  assert (Forall (name_from srv) body) as Hbody.
  { eapply Permutation_Forall; [exact Hp | exact Hnames]. }
  exists children, body, parent, rest. repeat split; auto.
  - rewrite length_app, <- (Permutation_length Hp), Hlen. cbn. lia.
  - now rewrite <- Hp, Hfields.
  - intros H2.
    assert (Forall has_string_name body) as Hstr.
    { eapply Permutation_Forall; [exact Hp|].
      eapply sort_ok_strings; [exact Hs | lia]. }
    clear -Hbody Hstr. induction Hbody as [|r body Hr _ IH]; [constructor|].
    apply List.Forall_cons_iff in Hstr as [[h Hh] Hstr].
    constructor; [|now apply IH].
    unfold name_from in Hr.
    destruct (srv !! ToString (computer_id r)) as [s|].
    + exists s, h. repeat split; congruence.
    + destruct Hr as [_ Hr]. congruence.
  - unfold summary_status. now rewrite last_snoc.
Qed.

Lemma report_holds_every_child_once_demo :
  exists children body parent rest,
    getChildActivities demo_world 1 DEV (PNum 100) = Ok children
    /\ getActivities demo_world 1 DEV (PNum 100) = Ok (parent :: rest)
    /\ demo_report 1 = body ++ [summary_record parent]
    /\ length (demo_report 1) = S (length children)
    /\ Permutation (map child_fields children) (map record_fields body)
    /\ Forall (name_from demo_gServers) body
    /\ ((2 <= length children)%nat ->
        Forall (fun r =>
                  exists s h, demo_gServers !! ToString (computer_id r) = Some s
                              /\ hostname s = PStr h
                              /\ computer_name r = PStr h) body)
    /\ summary_status (demo_report 1) = Ok (act_activity_status parent).
Proof.
  apply (report_holds_every_child_once demo_world DEV demo_gServers 1
           (PNum 100)).
  - vm_compute. reflexivity.
  - vm_compute. reflexivity.
Defined.

(** ** Reading the script id *)

Lemma parse_digits_stop (junk : string) (acc : option Z) :
  head_is is_dec_digit junk = false -> parse_digits 10 junk acc = acc.
Proof.
  destruct junk as [|c junk]; [reflexivity|]. cbn [head_is parse_digits].
  destruct c as [b0 b1 b2 b3 b4 b5 b6 b7].
  destruct b0, b1, b2, b3, b4, b5, b6, b7; intros H;
    try discriminate H; reflexivity.
Qed.

Ltac read_digit :=
  rewrite app_cons; cbn [parse_digits];
  match goal with
  | |- context [digit_value ?c] =>
    let v := eval vm_compute in (digit_value c) in
    change (digit_value c) with v
  end; cbv beta iota;
  match goal with
  | |- context [?a <? 10] =>
    let v := eval vm_compute in (a <? 10) in change (a <? 10) with v
  end; cbv beta iota; cbn [default].

Lemma parse_uint_acc (d : Decimal.uint) (acc : positive) (junk : string) :
  head_is is_dec_digit junk = false ->
  parse_digits 10 (NilEmpty.string_of_uint d +:+ junk) (Some (Z.pos acc))
  = Some (Z.pos (Pos.of_uint_acc d acc)).
Proof.
  intros Hj. revert acc.
  induction d as [|d IH|d IH|d IH|d IH|d IH|d IH|d IH|d IH|d IH|d IH];
    intros acc; cbn [NilEmpty.string_of_uint Pos.of_uint_acc];
    [rewrite app_nil_l; now apply parse_digits_stop|..];
    read_digit; rewrite <- IH; do 2 f_equal; unfold id; lia.
Qed.

Lemma parse_uint (d : Decimal.uint) (junk : string) :
  head_is is_dec_digit junk = false ->
  parse_digits 10 (NilEmpty.string_of_uint d +:+ junk) (Some 0)
  = Some (Z.of_N (Pos.of_uint d)).
Proof.
  intros Hj.
  induction d as [|d IH|d IH|d IH|d IH|d IH|d IH|d IH|d IH|d IH|d IH];
    cbn [NilEmpty.string_of_uint Pos.of_uint];
    [rewrite app_nil_l; now apply parse_digits_stop|..];
    read_digit; [exact IH|..]; cbn [Z.of_N];
    rewrite <- (parse_uint_acc _ _ _ Hj); reflexivity.
Qed.

Lemma nzhead_not_zero (d l : Decimal.uint) : Decimal.nzhead d <> Decimal.D0 l.
Proof. induction d; cbn; try discriminate. exact IHd. Qed.

(** The numeral of a positive number starts with a digit other than 0. *)
Lemma to_uint_head (p : positive) :
  match Pos.to_uint p with
  | Decimal.Nil | Decimal.D0 _ => False
  | _ => True
  end.
Proof.
  pose proof (DecimalPos.Unsigned.to_of (Pos.to_uint p)) as H.
  rewrite DecimalPos.Unsigned.of_to in H. cbn [N.to_uint] in H.
  pose proof (DecimalPos.Unsigned.to_uint_nonnil p) as Hn.
  unfold Decimal.unorm in H.
  destruct (Pos.to_uint p) as [|d|d|d|d|d|d|d|d|d|d] eqn:E; auto.
  cbn [Decimal.nzhead] in H.
  destruct (Decimal.nzhead d) eqn:En; try discriminate H.
  - injection H as ->. now apply (DecimalPos.Unsigned.to_uint_nonzero p).
  - now apply (nzhead_not_zero _ _ En).
Qed.

Lemma parseInt_digit (c : ascii) (rest : string) :
  is_dec_digit c = true ->
  parse_digits 10 (String c rest) None = parse_digits 10 (String c rest) (Some 0)
  /\ (c <> "0"%char ->
      parseInt (String c rest)
      = match parse_digits 10 (String c rest) None with
        | None => NaN
        | Some n => Num (1 * double_of_Z n)
        end
      /\ parseInt (String "-" (String c rest))
         = match parse_digits 10 (String c rest) None with
           | None => NaN
           | Some n => Num (-1 * double_of_Z n)
           end).
Proof.
  destruct c as [b0 b1 b2 b3 b4 b5 b6 b7].
  destruct b0, b1, b2, b3, b4, b5, b6, b7; intros H; try discriminate H;
    (split; [reflexivity|]); intros Hc; try (now destruct Hc);
    split; reflexivity.
Qed.

Lemma double_of_Z_exact (z : Z) : Z.abs z < 2 ^ 53 -> double_of_Z z = z.
Proof.
  intros H. unfold double_of_Z. cbv zeta.
  now destruct (Z.ltb_spec (Z.abs z) (2 ^ 53)) as [_|?]; [|lia].
Qed.

Lemma parseInt_pos (p : positive) (junk : string) :
  Z.pos p < 2 ^ 53 ->
  head_is is_dec_digit junk = false ->
  parseInt (NilEmpty.string_of_uint (Pos.to_uint p) +:+ junk) = Num (Z.pos p)
  /\ parseInt (String "-" (NilEmpty.string_of_uint (Pos.to_uint p) +:+ junk))
     = Num (Z.neg p).
Proof.
  intros Hp Hj. pose proof (parse_uint (Pos.to_uint p) junk Hj) as H.
  pose proof (double_of_Z_exact (Z.pos p) Hp) as Hd.
  rewrite DecimalPos.Unsigned.of_to in H. cbn [Z.of_N] in H.
  pose proof (to_uint_head p) as Hh. revert H Hh.
  destruct (Pos.to_uint p) as [|d|d|d|d|d|d|d|d|d|d]; intros H Hh;
    try destruct Hh;
    cbn [NilEmpty.string_of_uint] in *; rewrite app_cons in *;
    match goal with
    | |- context [parseInt (String ?c ?rest)] =>
      destruct (parseInt_digit c rest eq_refl) as [E0 E];
      destruct (E ltac:(discriminate)) as [-> ->]; rewrite E0, H, Hd
    end; split; reflexivity.
Qed.

Lemma parseInt_decimal (n : Z) (junk : string) :
  Z.abs n < 2 ^ 53 ->
  head_is is_dec_digit junk = false ->
  (n = 0 -> head_is is_x junk = false) ->
  parseInt (decimal n +:+ junk) = Num n.
Proof.
  intros Hn Hj Hx. unfold decimal. destruct n as [|p|p]; cbn [Z.to_int].
  - specialize (Hx eq_refl). cbn. rewrite app_cons, app_nil_l.
    destruct junk as [|c junk]; [reflexivity|].
    cbn [head_is] in Hj, Hx.
    destruct c as [b0 b1 b2 b3 b4 b5 b6 b7].
    destruct b0, b1, b2, b3, b4, b5, b6, b7;
      try discriminate Hj; try discriminate Hx; reflexivity.
  - cbn [NilEmpty.string_of_int]. now apply parseInt_pos.
  - cbn [NilEmpty.string_of_int]. rewrite app_cons. now apply parseInt_pos.
Qed.

Example parseInt_decimal_examples :
  parseInt (decimal 28 +:+ "abc") = Num 28
  /\ parseInt (decimal (-3)) = Num (-3)
  /\ parseInt (decimal 0 +:+ "x1f") = Num 31.
Proof. repeat split; reflexivity. Qed.

(** X8.  A value of [--script] that is the decimal numeral of an integer
    [n] other than 0 and below 2^53 in size (a number the program holds
    exactly, and prints with all its digits), followed by nothing or by
    text that does not start with a digit, is read as [n] (what follows
    the digits is dropped by [parseInt]); with a [--tag] that is not empty
    the arguments are accepted: the one event is the "Running" line, and
    the globals are the tag as given, the number [n], and the DEV instance
    exactly under [--dev]. *)
Theorem script_numeral_is_accepted (filename : string) (a : argv) (n : Z)
    (junk tag : string) :
  arg_script a = Some (decimal n +:+ junk) ->
  n <> 0 ->
  Z.abs n < 2 ^ 53 ->
  head_is is_dec_digit junk = false ->
  arg_tag a = Some tag ->
  tag <> EmptyString ->
  processCommandLineArgs filename a
  = ([Log Info
        ("Running '" +:+ filename +:+ " --tag " +:+ tag +:+ " --script "
         +:+ decimal n +:+ "' on Landscape "
         +:+ (if arg_dev a then "DEV" else "TST"))],
     Ret {| gLandscapeActivityGroup := tag;
            gLandscapeScript := Num n;
            gLandscapeCmd := if arg_dev a then DEV else TST |}).
Proof.
  intros Hs Hn Hb Hj Ht Hne.
  unfold processCommandLineArgs, program_script, program_tag.
  rewrite Hs, Ht. cbn [fmap option_fmap option_map].
  rewrite parseInt_decimal by (auto; contradiction).
  cbn [not_script not_tag].
  destruct (Z.eqb_spec n 0) as [|_]; [contradiction|].
  destruct (String.eqb_spec tag EmptyString) as [|_]; [contradiction|].
  cbn [orb]. unfold running_message. now destruct (arg_dev a).
Qed.

Lemma script_numeral_is_accepted_demo :
  processCommandLineArgs "deploy.js"
    {| arg_dev := true; arg_script := Some "28abc";
       arg_tag := Some "ply-servers" |}
  = ([Log Info
        ("Running '" +:+ "deploy.js" +:+ " --tag " +:+ "ply-servers"
         +:+ " --script " +:+ decimal 28 +:+ "' on Landscape " +:+ "DEV")],
     Ret {| gLandscapeActivityGroup := "ply-servers";
            gLandscapeScript := Num 28;
            gLandscapeCmd := DEV |}).
Proof.
  apply (script_numeral_is_accepted "deploy.js"
           {| arg_dev := true; arg_script := Some "28abc";
              arg_tag := Some "ply-servers" |} 28 "abc" "ply-servers");
    try reflexivity; discriminate.
Defined.

(** ** The polling loop, further *)

Lemma generate_trace_cases (w : World) (i : instance) (srv : servers)
    (tick : nat) (id : prim) :
  (generateDetailedActivityReport w i srv tick id).1 = [GetChildActivities i id]
  \/ (generateDetailedActivityReport w i srv tick id).1
     = [GetChildActivities i id; GetActivities i id].
Proof.
  rewrite generateDetailedActivityReport_run.
  destruct (getChildActivities w tick i id); [|now left].
  destruct (rbind _ _); [|now left].
  destruct (rbind _ _); now right.
Qed.

Lemma generate_returns_both (w : World) (i : instance) (srv : servers)
    (tick : nat) (id : prim) (evs : list event) (rep : report) :
  generateDetailedActivityReport w i srv tick id = (evs, Ret rep) ->
  evs = [GetChildActivities i id; GetActivities i id].
Proof.
  rewrite generateDetailedActivityReport_run.
  destruct (getChildActivities w tick i id); [|discriminate].
  destruct (rbind _ _); [|discriminate].
  destruct (rbind _ _); [|discriminate].
  now intros H; injection H as <- _.
Qed.

Ltac forall_list :=
  repeat first [apply List.Forall_nil | apply List.Forall_cons].

Lemma pass_trace_loop_events (i : instance) (id : prim) (old : option report)
    (evs : list event) (new : report) :
  Forall (loop_event i id) evs ->
  Forall (loop_event i id) (pass_trace old evs new).
Proof.
  intros H. unfold pass_trace. constructor; [now left|].
  apply Forall_app. split; [assumption|].
  apply Forall_app. split.
  - destruct (isEqual old (Some new)); forall_list; unfold loop_event;
      eauto 8.
  - forall_list. unfold loop_event. auto 8.
Qed.

Lemma generate_loop_events (w : World) (i : instance) (srv : servers)
    (tick : nat) (id : prim) :
  Forall (loop_event i id) (generateDetailedActivityReport w i srv tick id).1.
Proof.
  destruct (generate_trace_cases w i srv tick id) as [-> | ->];
    forall_list; unfold loop_event; auto.
Qed.

Lemma poll_loop_events (w : World) (i : instance) (srv : servers) (id : prim)
    (fuel tick : nat) (old : option report) :
  Forall (loop_event i id) (poll w i srv id fuel tick old).1.
Proof.
  revert tick old. induction fuel as [|fuel IH]; intros tick old;
    rewrite poll_unfold;
    pose proof (generate_loop_events w i srv tick id) as Hg;
    destruct (generateDetailedActivityReport w i srv tick id)
      as [evs [new|c|e|]]; cbn [fst] in Hg;
    try (cbn [fst]; constructor; [now left | assumption]);
    (destruct (summary_status new) as [st|e]; [destruct (continue st)|]);
    cbn [fst]; rewrite ?Forall_app; auto using pass_trace_loop_events.
Qed.

Lemma loop_event_not_step (i : instance) (id : prim) (t : list event) :
  Forall (loop_event i id) t -> List.filter is_step t = [].
Proof.
  induction 1 as [|e t He _ IH]; [reflexivity|]. cbn [List.filter].
  rewrite IH.
  destruct He as [->|[->|[->|[->|[[r ->]| ->]]]]]; reflexivity.
Qed.

Lemma poll_sleeps_fetches (w : World) (i : instance) (srv : servers)
    (id : prim) (fuel tick : nat) (old : option report) :
  count_events is_sleep (poll w i srv id fuel tick old).1
  = count_events is_get_children (poll w i srv id fuel tick old).1
  /\ (count_events is_get_parent (poll w i srv id fuel tick old).1
      <= count_events is_sleep (poll w i srv id fuel tick old).1)%nat.
Proof.
  assert (Hpass : forall old evs new,
             evs = [GetChildActivities i id; GetActivities i id] ->
             count_events is_sleep (pass_trace old evs new) = 1%nat
             /\ count_events is_get_children (pass_trace old evs new) = 1%nat
             /\ count_events is_get_parent (pass_trace old evs new) = 1%nat).
  { intros o evs new ->. unfold pass_trace.
    destruct (isEqual o (Some new)); repeat split; reflexivity. }
  revert tick old. induction fuel as [|fuel IH]; intros tick old;
    rewrite poll_unfold;
    pose proof (generate_trace_cases w i srv tick id) as Hc;
    pose proof (generate_returns_both w i srv tick id) as Hb;
    destruct (generateDetailedActivityReport w i srv tick id)
      as [evs [new|c|e|]]; cbn [fst] in Hc;
    try (cbn [fst]; destruct Hc as [-> | ->]; split; cbn; lia);
    destruct (Hpass old evs new (Hb _ _ eq_refl)) as (H1 & H2 & H3);
    (destruct (summary_status new) as [st|e]; [destruct (continue st)|]);
    cbn [fst]; rewrite ?count_events_app, ?H1, ?H2, ?H3; try (split; lia).
  destruct (IH (S tick) (Some new)) as [E L]. split; lia.
Qed.

(** X9.  The loop does nothing but sleep, query and report: every event of
    a run of the loop is the sleep of 15 seconds, the query of the child
    activities or of the parent activity of the script run, on the
    instance of the run, the status line, a table or the "Deploying" line.
    So the loop never dispatches a script, fetches the computers again or
    posts to Slack; and it sleeps once before each query of the child
    activities, and queries the parent at most as often. *)
Theorem poll_only_sleeps_and_queries (w : World) (i : instance) (srv : servers)
    (id : prim) (fuel tick : nat) (old : option report) :
  Forall (loop_event i id) (poll w i srv id fuel tick old).1
  /\ List.filter is_step (poll w i srv id fuel tick old).1 = []
  /\ count_events is_sleep (poll w i srv id fuel tick old).1
     = count_events is_get_children (poll w i srv id fuel tick old).1
  /\ (count_events is_get_parent (poll w i srv id fuel tick old).1
      <= count_events is_sleep (poll w i srv id fuel tick old).1)%nat.
Proof.
  split; [apply poll_loop_events|].
  split; [apply (loop_event_not_step i id), poll_loop_events|].
  apply poll_sleeps_fetches.
Qed.

Lemma poll_throws (w : World) (i : instance) (srv : servers) (id : prim)
    (n fuel t : nat) (old : option report) (e : exn) :
  (forall k, (k < n)%nat ->
     exists st, poll_status w i srv id (t + k) = Some st
                /\ terminal st = false) ->
  (generateDetailedActivityReport w i srv (t + n) id).2 = Thrown e ->
  (n <= fuel)%nat ->
  (poll w i srv id fuel t old).2 = Thrown e
  /\ count_events is_sleep (poll w i srv id fuel t old).1 = S n.
Proof.
  revert fuel t old. induction n as [|n IH]; intros fuel t old H He Hle;
    rewrite poll_unfold.
  - rewrite Nat.add_0_r in He.
    pose proof (generate_no_sleep w i srv t id) as Hz.
    destruct (generateDetailedActivityReport w i srv t id) as [evs [r|c|x|]];
      cbn in He; try discriminate. injection He as ->. cbn [fst snd] in *.
    split; [reflexivity|].
    change (Sleep 15 :: evs) with ([Sleep 15] ++ evs).
    now rewrite count_events_app, Hz.
  - destruct (H O ltac:(lia)) as (st0 & Hst0 & Hterm0).
    rewrite Nat.add_0_r in Hst0.
    destruct (poll_status_inv _ _ _ _ _ _ Hst0) as (evs & rep0 & Hg & Hs).
    pose proof (generate_no_sleep w i srv t id) as Hz.
    rewrite Hg in *. cbn [fst] in Hz. rewrite Hs, continue_terminal, Hterm0.
    cbn [negb]. destruct fuel as [|fuel]; [lia|].
    destruct (IH fuel (S t) (Some rep0)) as (Hp & Hc).
    { intros k Hk. replace (S t + k)%nat with (t + S k)%nat by lia.
      apply H. lia. }
    { now replace (S t + n)%nat with (t + S n)%nat by lia. }
    { lia. }
    cbn [fst snd]. split; [assumption|].
    rewrite count_events_app, Hc, pass_trace_sleeps by assumption. reflexivity.
Qed.

(** X10.  There is no retry: when the status is outside the three at the
    polls 0 .. n-1 and the fetch of poll n throws, the loop ends at that
    poll with the same exception, after n+1 sleeps, however much fuel is
    left, and without the message of the end. *)
Theorem poll_fetch_failure_is_fatal (w : World) (i : instance) (srv : servers)
    (id : prim) (n fuel : nat) (e : exn) :
  (forall k, (k < n)%nat ->
     exists st, poll_status w i srv id k = Some st /\ terminal st = false) ->
  (generateDetailedActivityReport w i srv n id).2 = Thrown e ->
  (n <= fuel)%nat ->
  (poll w i srv id fuel 0 None).2 = Thrown e
  /\ count_events is_sleep (poll w i srv id fuel 0 None).1 = S n
  /\ count_events is_completion (poll w i srv id fuel 0 None).1 = O.
Proof.
  intros H He Hle.
  destruct (poll_throws w i srv id n fuel 0 None e H He Hle) as [H1 H2].
  repeat split; auto. apply poll_no_completion.
Qed.

Lemma poll_fetch_failure_is_fatal_flaky :
  (poll flaky_world DEV demo_gServers (PNum 100) 5 0 None).2 = Thrown CallFailed
  /\ count_events is_sleep
       (poll flaky_world DEV demo_gServers (PNum 100) 5 0 None).1 = 2%nat
  /\ count_events is_completion
       (poll flaky_world DEV demo_gServers (PNum 100) 5 0 None).1 = O.
Proof.
  apply (poll_fetch_failure_is_fatal flaky_world DEV demo_gServers (PNum 100)
           1 5 CallFailed).
  - intros k Hk. assert (k = O) as -> by lia.
    exists (PStr "in-progress"). split; vm_compute; reflexivity.
  - vm_compute. reflexivity.
  - lia.
Defined.

(** ** The tables of a run *)

Lemma poll_prints (w : World) (i : instance) (srv : servers) (id : prim)
    (rep : nat -> report) (n fuel t : nat) (old : option report) :
  (forall k, (k <= n)%nat ->
     (generateDetailedActivityReport w i srv (t + k) id).2 = Ret (rep (t + k)%nat)) ->
  (forall k, (k < n)%nat ->
     exists st, summary_status (rep (t + k)%nat) = Ok st /\ terminal st = false) ->
  ((n <= fuel)%nat ->
   exists st, summary_status (rep (t + n)%nat) = Ok st /\ terminal st = true) ->
  (fuel < n -> exists st, summary_status (rep (t + n)%nat) = Ok st
                          /\ terminal st = false)%nat ->
  List.filter is_print (poll w i srv id fuel t old).1
  = map PrintTable (changes old (map rep (seq t (S (Nat.min n fuel))))).
Proof.
  revert fuel t old. induction n as [|n IH]; intros fuel t old Hg Hnt Ht Hr;
    rewrite poll_unfold;
    pose proof (Hg O ltac:(lia)) as Hg0; rewrite Nat.add_0_r in Hg0;
    pose proof (generate_no_print w i srv t id) as Hz;
    destruct (generateDetailedActivityReport w i srv t id) as [evs o];
    cbn [fst snd] in *; subst o.
  - destruct (Ht ltac:(lia)) as (st & Hs & Hterm). rewrite Nat.add_0_r in Hs.
    rewrite Hs, continue_terminal, Hterm. cbn [negb fst Nat.min seq map changes].
    unfold pass_trace. cbn [List.filter is_print].
    rewrite !List.filter_app, Hz.
    now destruct (isEqual old (Some (rep t))).
  - destruct (Hnt O ltac:(lia)) as (st & Hs & Hterm).
    rewrite Nat.add_0_r in Hs. rewrite Hs, continue_terminal, Hterm.
    cbn [negb]. destruct fuel as [|fuel]; cbn [fst Nat.min seq map changes].
    + unfold pass_trace. cbn [List.filter is_print].
      rewrite !List.filter_app, Hz.
      now destruct (isEqual old (Some (rep t))).
    + rewrite List.filter_app, (IH fuel (S t) (Some (rep t))).
      * unfold pass_trace. cbn [List.filter is_print].
        rewrite !List.filter_app, Hz. rewrite map_app.
        now destruct (isEqual old (Some (rep t))).
      * intros k Hk. replace (S t + k)%nat with (t + S k)%nat by lia.
        apply Hg. lia.
      * intros k Hk. replace (S t + k)%nat with (t + S k)%nat by lia.
        apply Hnt. lia.
      * intros Hk. replace (S t + n)%nat with (t + S n)%nat by lia.
        apply Ht. lia.
      * intros Hk. replace (S t + n)%nat with (t + S n)%nat by lia.
        apply Hr. lia.
Qed.

(** X11.  Let the polls 0 .. n return the reports [rep 0] .. [rep n], with
    a status outside the three before poll n and one of the three at poll
    n.  Then, with fuel for n passes or more, the tables a run of the loop
    prints are, in order, the reports among [rep 0] .. [rep n] that differ
    from the report of the poll before: the first report always, and a
    later one only when it is not the same as its predecessor. *)
Theorem poll_prints_the_changes (w : World) (i : instance) (srv : servers)
    (id : prim) (rep : nat -> report) (n fuel : nat) :
  (forall k, (k <= n)%nat ->
     (generateDetailedActivityReport w i srv k id).2 = Ret (rep k)) ->
  (forall k, (k < n)%nat ->
     exists st, summary_status (rep k) = Ok st /\ terminal st = false) ->
  (exists st, summary_status (rep n) = Ok st /\ terminal st = true) ->
  (n <= fuel)%nat ->
  List.filter is_print (poll w i srv id fuel 0 None).1
  = map PrintTable (changes None (map rep (seq 0 (S n))))
  /\ changes None (map rep (seq 0 (S n)))
     = rep O :: changes (Some (rep O)) (map rep (seq 1 n))
  /\ (forall old r l, isEqual old (Some r) = true ->
        changes old (r :: l) = changes (Some r) l).
Proof.
  intros Hg Hnt Ht Hle. split; [|split].
  - rewrite (poll_prints w i srv id rep n fuel 0 None); auto.
    + now rewrite Nat.min_l.
    + intros Hlt. lia.
  - cbn [seq map changes]. now rewrite isEqual_null_report.
  - intros old r l E. cbn [changes]. now rewrite E.
Qed.

Lemma poll_prints_the_changes_demo :
  List.filter is_print (poll demo_world DEV demo_gServers (PNum 100) 5 0 None).1
  = map PrintTable (changes None (map demo_report (seq 0 2)))
  /\ changes None (map demo_report (seq 0 2))
     = demo_report 0 :: changes (Some (demo_report 0)) (map demo_report (seq 1 1))
  /\ (forall old r l, isEqual old (Some r) = true ->
        changes old (r :: l) = changes (Some r) l).
Proof.
  apply (poll_prints_the_changes demo_world DEV demo_gServers (PNum 100)
           demo_report 1 5).
  - intros k Hk. assert (k = O \/ k = 1%nat) as [-> | ->] by lia;
      vm_compute; reflexivity.
  - intros k Hk. assert (k = O) as -> by lia.
    exists (PStr "in-progress"). split; reflexivity.
  - exists (PStr "succeeded"). split; reflexivity.
  - lia.
Defined.

(** ** The steps of a run *)

Lemma processCommandLineArgs_ret (filename : string) (a : argv)
    (t0 : list event) (g : globals) :
  processCommandLineArgs filename a = (t0, Ret g) ->
  t0 = [Log Info (running_message filename g)].
Proof.
  rewrite processCommandLineArgs_run. destruct (_ || _); [discriminate|].
  destruct (program_script a), (program_tag a); try discriminate.
  cbn zeta. intros H. now injection H as <- <-.
Qed.

Lemma poll_no_step (w : World) (i : instance) (srv : servers) (id : prim)
    (fuel tick : nat) (old : option report) :
  List.filter is_step (poll w i srv id fuel tick old).1 = [].
Proof. apply (loop_event_not_step i id), poll_loop_events. Qed.

(** X12.  When the arguments are accepted, the remote calls of a run other
    than the queries of the loop happen in one order and at most once each.
    In the first revision: the computers are fetched, then the script is
    dispatched.  In the later revision: the computers are fetched, the
    start is notified, the script is dispatched, and the end is notified
    in two messages.  A run that ends early has made a first part of that
    list and nothing else; in particular the script is never dispatched
    twice, and never before the computers are fetched. *)
Theorem steps_in_order (w : World) (filename : string) (a : argv) (fuel : nat)
    (t0 : list event) (g : globals) :
  processCommandLineArgs filename a = (t0, Ret g) ->
  (exists k,
     List.filter is_step (Deploy.main w filename a fuel).1 ++ k
     = [ GetComputers (gLandscapeCmd g) (gLandscapeActivityGroup g);
         ExecuteScript (gLandscapeCmd g) (gLandscapeActivityGroup g)
                       (gLandscapeScript g) ])
  /\ (exists text k,
        List.filter is_step (LandscapeDeploy.main w filename a fuel).1 ++ k
        = [ GetComputers (gLandscapeCmd g) (gLandscapeActivityGroup g);
            Slack (LandscapeDeploy.deploying_text g);
            ExecuteScript (gLandscapeCmd g) (gLandscapeActivityGroup g)
                          (gLandscapeScript g);
            Slack (LandscapeDeploy.finished_text g);
            Slack text ]).
Proof.
  intros H0. pose proof (processCommandLineArgs_ret _ _ _ _ H0) as ->.
  split.
  - unfold Deploy.main, getServers, log_completion. rewrite H0. run_step.
    destruct (getComputers w _ _) as [l|e]; run_step; [|cbn; eauto].
    destruct (executeScript w _ _ _) as [parent|e]; run_step; [|cbn; eauto].
    pose proof (poll_no_step w (gLandscapeCmd g)
                  (fold_left (fun (m : servers) srv =>
                                <[ToString (server_id srv) := srv]> m) l ∅)
                  (act_id parent) fuel 0 None) as Hp.
    destruct (poll w _ _ _ fuel 0 None) as [tp [rep|c|e|]]; cbn [fst snd] in *;
      cbn [app List.filter is_step]; rewrite ?List.filter_app, ?Hp;
      try (cbn; eauto; fail).
    destruct (summary_status rep) as [st|e]; run_step; [|cbn; eauto].
    destruct (_ || _); cbn; eauto.
  - unfold LandscapeDeploy.main, LandscapeDeploy.postSlackNotification,
      getServers, log_completion.
    rewrite H0. run_step.
    destruct (getComputers w _ _) as [l|e]; run_step;
      [|exists EmptyString; cbn; eauto].
    destruct (postSlack w (LandscapeDeploy.deploying_text g)) as [[]|e];
      run_step; [|exists EmptyString; cbn; eauto].
    destruct (executeScript w _ _ _) as [parent|e]; run_step;
      [|exists EmptyString; cbn; eauto].
    pose proof (poll_no_step w (gLandscapeCmd g)
                  (fold_left (fun (m : servers) srv =>
                                <[ToString (server_id srv) := srv]> m) l ∅)
                  (act_id parent) fuel 0 None) as Hp.
    destruct (poll w _ _ _ fuel 0 None) as [tp [rep|c|e|]]; cbn [fst snd] in *;
      cbn [app List.filter is_step]; rewrite ?List.filter_app, ?Hp;
      try (exists EmptyString; cbn; eauto; fail).
    exists (convertDetailedActivityReportToText rep).
    destruct (postSlack w (LandscapeDeploy.finished_text g)) as [[]|e];
      run_step; [|cbn; eauto].
    destruct (postSlack w (convertDetailedActivityReportToText rep)) as [[]|e];
      run_step; [|cbn; eauto].
    destruct (summary_status rep) as [st|e]; run_step; [|cbn; eauto].
    destruct (_ || _); cbn; eauto.
Qed.

Lemma steps_in_order_demo :
  (exists k,
     List.filter is_step (Deploy.main demo_world "deploy.js" demo_argv 5).1 ++ k
     = [ GetComputers (gLandscapeCmd demo_globals)
                      (gLandscapeActivityGroup demo_globals);
         ExecuteScript (gLandscapeCmd demo_globals)
                       (gLandscapeActivityGroup demo_globals)
                       (gLandscapeScript demo_globals) ])
  /\ (exists text k,
        List.filter is_step
          (LandscapeDeploy.main demo_world "deploy.js" demo_argv 5).1 ++ k
        = [ GetComputers (gLandscapeCmd demo_globals)
                         (gLandscapeActivityGroup demo_globals);
            Slack (LandscapeDeploy.deploying_text demo_globals);
            ExecuteScript (gLandscapeCmd demo_globals)
                          (gLandscapeActivityGroup demo_globals)
                          (gLandscapeScript demo_globals);
            Slack (LandscapeDeploy.finished_text demo_globals);
            Slack text ]).
Proof.
  apply (steps_in_order demo_world "deploy.js" demo_argv 5
           [Log Info (running_message "deploy.js" demo_globals)] demo_globals).
  reflexivity.
Defined.

(** X13.  A failure before the loop ends the run where it happens.  When
    the arguments are accepted: if the computers cannot be fetched, both
    revisions stop right after that call, before any dispatch; in the
    later revision, if the computers are fetched but the notification of
    the start cannot be posted, the run stops there and the script is not
    dispatched; and if the dispatch itself fails, the first revision stops
    after it without a sleep or a query. *)
Theorem failure_before_loop_is_fatal (w : World) (filename : string)
    (a : argv) (fuel : nat) (t0 : list event) (g : globals) :
  processCommandLineArgs filename a = (t0, Ret g) ->
  (forall e,
     getComputers w (gLandscapeCmd g) (gLandscapeActivityGroup g) = Throw e ->
     Deploy.main w filename a fuel
     = (t0 ++ [Log Info (getting_message g);
               GetComputers (gLandscapeCmd g) (gLandscapeActivityGroup g)],
        Thrown e)
     /\ LandscapeDeploy.main w filename a fuel
        = (t0 ++ [Log Info (getting_message g);
                  GetComputers (gLandscapeCmd g) (gLandscapeActivityGroup g)],
           Thrown e))
  /\ (forall l e,
        getComputers w (gLandscapeCmd g) (gLandscapeActivityGroup g) = Ok l ->
        postSlack w (LandscapeDeploy.deploying_text g) = Throw e ->
        LandscapeDeploy.main w filename a fuel
        = (t0 ++ [Log Info (getting_message g);
                  GetComputers (gLandscapeCmd g) (gLandscapeActivityGroup g);
                  Log Info (executing_message g);
                  Slack (LandscapeDeploy.deploying_text g)],
           Thrown e))
  /\ (forall l e,
        getComputers w (gLandscapeCmd g) (gLandscapeActivityGroup g) = Ok l ->
        executeScript w (gLandscapeCmd g) (gLandscapeActivityGroup g)
                      (gLandscapeScript g) = Throw e ->
        Deploy.main w filename a fuel
        = (t0 ++ [Log Info (getting_message g);
                  GetComputers (gLandscapeCmd g) (gLandscapeActivityGroup g);
                  Log Info (executing_message g);
                  ExecuteScript (gLandscapeCmd g) (gLandscapeActivityGroup g)
                                (gLandscapeScript g)],
           Thrown e)).
Proof.
  intros H0. split; [|split].
  - intros e He.
    unfold Deploy.main, LandscapeDeploy.main, getServers. rewrite H0. run_step.
    rewrite He. run_step. cbn [app]. split; reflexivity.
  - intros l e Hl He.
    unfold LandscapeDeploy.main, LandscapeDeploy.postSlackNotification,
      getServers. rewrite H0. run_step. rewrite Hl. run_step.
    rewrite He. run_step. reflexivity.
  - intros l e Hl He.
    unfold Deploy.main, getServers. rewrite H0. run_step. rewrite Hl. run_step.
    rewrite He. run_step. reflexivity.
Qed.

Lemma failure_before_loop_is_fatal_mute :
  LandscapeDeploy.main mute_world "deploy.js" demo_argv 5
  = ([Log Info (running_message "deploy.js" demo_globals)]
     ++ [Log Info (getting_message demo_globals);
         GetComputers DEV "ply-servers";
         Log Info (executing_message demo_globals);
         Slack (LandscapeDeploy.deploying_text demo_globals)],
     Thrown CallFailed).
Proof.
  apply (proj1 (proj2 (failure_before_loop_is_fatal mute_world "deploy.js"
                         demo_argv 5
                         [Log Info (running_message "deploy.js" demo_globals)]
                         demo_globals eq_refl))
           demo_servers CallFailed); reflexivity.
Defined.

(** ** The ways a run ends *)

Lemma generate_no_exit (w : World) (i : instance) (srv : servers) (tick : nat)
    (id : prim) (c : Z) :
  (generateDetailedActivityReport w i srv tick id).2 <> Exit c.
Proof.
  rewrite generateDetailedActivityReport_run.
  destruct (getChildActivities w tick i id); [|discriminate].
  destruct (rbind _ _); [|discriminate].
  destruct (rbind _ _); discriminate.
Qed.

Lemma poll_no_exit (w : World) (i : instance) (srv : servers) (id : prim)
    (fuel tick : nat) (old : option report) (c : Z) :
  (poll w i srv id fuel tick old).2 <> Exit c.
Proof.
  revert tick old. induction fuel as [|fuel IH]; intros tick old;
    rewrite poll_unfold;
    pose proof (generate_no_exit w i srv tick id c) as Hg;
    destruct (generateDetailedActivityReport w i srv tick id)
      as [evs [new|c'|e|]]; cbn [snd] in *; try discriminate;
    try (intros H; injection H as ->; now apply Hg);
    (destruct (summary_status new) as [st|e]; [destruct (continue st)|]);
    cbn [snd]; try discriminate.
  apply IH.
Qed.

(** X14.  Once commander has read the command line and [parse] has
    returned, the driver itself ends the process in one place only: the
    call of [program.help()] in [processCommandLineArgs].  A run of either
    revision that ends with the end of the process is the help text alone,
    without any other event, and it is the run of arguments that fail the
    test of the script and the tag; a run whose arguments pass the test
    never ends that way: it returns from [main] (also when the deployment
    failed: see the message of the end), is stopped by an exception, or is
    still polling.  (What commander does by itself inside [parse], for a
    command line it refuses or answers, is not the driver's code and is
    not part of the statement.) *)
Theorem exit_is_help (w : World) (filename : string) (a : argv) (fuel : nat)
    (c : Z) :
  (Deploy.main w filename a fuel).2 = Exit c
  \/ (LandscapeDeploy.main w filename a fuel).2 = Exit c ->
  not_script (program_script a) || not_tag (program_tag a) = true
  /\ processCommandLineArgs filename a = ([Help], Exit c)
  /\ Deploy.main w filename a fuel = ([Help], Exit c)
  /\ LandscapeDeploy.main w filename a fuel = ([Help], Exit c).
Proof.
  intros H.
  assert ((not_script (program_script a) || not_tag (program_tag a) = true
           /\ processCommandLineArgs filename a
              = ([Help], Exit help_exit_code))
          \/ exists t0 g, processCommandLineArgs filename a = (t0, Ret g))
    as [[Ht Hh]|(t0 & g & H0)].
  { rewrite processCommandLineArgs_run.
    destruct (not_script (program_script a) || not_tag (program_tag a)) eqn:Ht;
      [now left|].
    right. destruct (program_script a), (program_tag a); eauto;
      cbn in Ht; rewrite ?orb_true_r in Ht; discriminate Ht. }
  - destruct (main_help w filename a fuel Hh) as [E1 E2].
    rewrite E1, E2, Hh in *. cbn in H.
    destruct H as [H|H]; injection H as <-; repeat split; assumption.
  - exfalso. destruct H as [H|H].
    + unfold Deploy.main, getServers, log_completion in H. rewrite H0 in H.
      revert H. run_step.
      destruct (getComputers w _ _) as [l|]; run_step; [|discriminate].
      destruct (executeScript w _ _ _) as [parent|]; run_step; [|discriminate].
      pose proof (poll_no_exit w (gLandscapeCmd g)
                    (fold_left (fun (m : servers) srv =>
                                  <[ToString (server_id srv) := srv]> m) l ∅)
                    (act_id parent) fuel 0 None c) as Hp.
      destruct (poll w _ _ _ fuel 0 None) as [tp [rep|c'|e|]];
        cbn [fst snd] in *; try discriminate;
        [|intros E; injection E as ->; now apply Hp].
      destruct (summary_status rep); run_step; [|discriminate].
      destruct (_ || _); discriminate.
    + unfold LandscapeDeploy.main, LandscapeDeploy.postSlackNotification,
        getServers, log_completion in H. rewrite H0 in H.
      revert H. run_step.
      destruct (getComputers w _ _) as [l|]; run_step; [|discriminate].
      destruct (postSlack w (LandscapeDeploy.deploying_text g)) as [[]|];
        run_step; [|discriminate].
      destruct (executeScript w _ _ _) as [parent|]; run_step; [|discriminate].
      pose proof (poll_no_exit w (gLandscapeCmd g)
                    (fold_left (fun (m : servers) srv =>
                                  <[ToString (server_id srv) := srv]> m) l ∅)
                    (act_id parent) fuel 0 None c) as Hp.
      destruct (poll w _ _ _ fuel 0 None) as [tp [rep|c'|e|]];
        cbn [fst snd] in *; try discriminate;
        [|intros E; injection E as ->; now apply Hp].
      destruct (postSlack w (LandscapeDeploy.finished_text g)) as [[]|];
        run_step; [|discriminate].
      destruct (postSlack w (convertDetailedActivityReportToText rep)) as [[]|];
        run_step; [|discriminate].
      destruct (summary_status rep); run_step; [|discriminate].
      destruct (_ || _); discriminate.
Qed.

Lemma exit_is_help_demo :
  not_script (program_script
                {| arg_dev := false; arg_script := Some "28";
                   arg_tag := Some EmptyString |})
  || not_tag (program_tag
                {| arg_dev := false; arg_script := Some "28";
                   arg_tag := Some EmptyString |}) = true
  /\ processCommandLineArgs "deploy.js"
       {| arg_dev := false; arg_script := Some "28"; arg_tag := Some EmptyString |}
     = ([Help], Exit 0)
  /\ Deploy.main demo_world "deploy.js"
       {| arg_dev := false; arg_script := Some "28"; arg_tag := Some EmptyString |}
       5 = ([Help], Exit 0)
  /\ LandscapeDeploy.main demo_world "deploy.js"
       {| arg_dev := false; arg_script := Some "28"; arg_tag := Some EmptyString |}
       5 = ([Help], Exit 0).
Proof.
  apply (exit_is_help demo_world "deploy.js"
           {| arg_dev := false; arg_script := Some "28";
              arg_tag := Some EmptyString |} 5 0).
  left. reflexivity.
Defined.

(** ** postSlackNotification: the command *)

Lemma count_char_app (c : ascii) (s t : string) :
  count_char c (s +:+ t) = (count_char c s + count_char c t)%nat.
Proof.
  induction s as [|c' s IH]; [reflexivity|].
  rewrite app_cons. cbn [count_char]. rewrite IH. lia.
Qed.

Lemma count_json_char (c : ascii) :
  count_char apostrophe (json_char c)
  = if Ascii.eqb c apostrophe then 1%nat else O.
Proof.
  destruct c as [b0 b1 b2 b3 b4 b5 b6 b7].
  destruct b0, b1, b2, b3, b4, b5, b6, b7; reflexivity.
Qed.

Lemma count_QuoteJSONString (s : string) :
  count_char apostrophe (QuoteJSONString s) = count_char apostrophe s.
Proof.
  unfold QuoteJSONString. cbn [count_char]. rewrite count_char_app.
  cbn [count_char]. change (Ascii.eqb dquote apostrophe) with false.
  induction s as [|c s IH]; [reflexivity|].
  cbn [json_escape count_char]. rewrite count_char_app, count_json_char. lia.
Qed.

Lemma slack_payload_eq (text username channel iconEmoji : string) :
  slack_payload text username channel iconEmoji
  = String "{"
      (QuoteJSONString "username" +:+ ":" +:+ QuoteJSONString username
       +:+ "," +:+ QuoteJSONString "channel" +:+ ":"
       +:+ QuoteJSONString channel
       +:+ "," +:+ QuoteJSONString "icon_emoji" +:+ ":"
       +:+ QuoteJSONString iconEmoji
       +:+ "," +:+ QuoteJSONString "text" +:+ ":" +:+ QuoteJSONString text
       +:+ "}").
Proof.
  unfold slack_payload, SerializeJSONObject, json_partial, json_member.
  cbn [omap list_omap fst snd SerializeJSONProperty fmap option_fmap option_map
       map String.concat].
  now rewrite !app_assoc, !app_cons, !app_nil_l.
Qed.

(** X15.  The command [postSlackNotification] runs carries its four strings
    unchanged enough to tell them apart: two commands for the same hook are
    the same only if the text, the user name, the channel and the icon are
    the same.  But the payload is put between two apostrophes and an
    apostrophe inside it is not escaped: the command has the two
    apostrophes of the quotation and one more for each apostrophe of the
    four strings and of the address; and both notifications that [main]
    words around the script id and the group have at least four. *)
Theorem slack_command_embeds_text (url : string) :
  (forall t1 u1 c1 i1 t2 u2 c2 i2,
     slack_command url t1 u1 c1 i1 = slack_command url t2 u2 c2 i2 ->
     t1 = t2 /\ u1 = u2 /\ c1 = c2 /\ i1 = i2)
  /\ (forall text username channel iconEmoji,
        count_char apostrophe
          (slack_command url text username channel iconEmoji)
        = (2 + count_char apostrophe text + count_char apostrophe username
           + count_char apostrophe channel + count_char apostrophe iconEmoji
           + count_char apostrophe url)%nat)
  /\ (forall g,
        (4 <= count_char apostrophe (LandscapeDeploy.deploying_text g))%nat
        /\ (4 <= count_char apostrophe (LandscapeDeploy.finished_text g))%nat).
Proof.
  split; [|split].
  - intros t1 u1 c1 i1 t2 u2 c2 i2 H. unfold slack_command in H.
    apply (inj (String.append _)) in H.
    unfold slack_payload in H.
    apply SerializeJSONObject_span in H as [H _].
    unfold json_partial in H.
    cbn [omap list_omap fst snd SerializeJSONProperty fmap option_fmap
         option_map] in H.
    injection H as Hu Hc Hi Ht.
    apply json_escape_inj in Hu as [-> _]. apply json_escape_inj in Hc as [-> _].
    apply json_escape_inj in Hi as [-> _]. apply json_escape_inj in Ht as [-> _].
    auto.
  - intros text username channel iconEmoji.
    unfold slack_command. rewrite slack_payload_eq.
    rewrite !count_char_app. cbn [count_char].
    rewrite !count_char_app, !count_QuoteJSONString. cbn. lia.
  - intros g. unfold LandscapeDeploy.deploying_text, LandscapeDeploy.finished_text.
    rewrite !count_char_app. cbn. lia.
Qed.

(** ** convertDetailedActivityReportToText, further *)

(** X16.  The text of two reports put end to end is the two texts put end
    to end, and so the text of a report that ends with the summary record
    of a parent ends with the line of the summary: the sentinel name, a
    colon and a space, the status of the parent and a newline. *)
Theorem convertDetailedActivityReportToText_app :
  (forall l1 l2,
     convertDetailedActivityReportToText (l1 ++ l2)
     = convertDetailedActivityReportToText l1
       +:+ convertDetailedActivityReportToText l2)
  /\ (forall l parent,
        convertDetailedActivityReportToText (l ++ [summary_record parent])
        = convertDetailedActivityReportToText l
          +:+ "** ALL (Summary) **: "
          +:+ ToString (act_activity_status parent)
          +:+ String newline EmptyString).
Proof.
  assert (Happ : forall l1 l2,
             convertDetailedActivityReportToText (l1 ++ l2)
             = convertDetailedActivityReportToText l1
               +:+ convertDetailedActivityReportToText l2).
  { intros l1 l2. unfold convertDetailedActivityReportToText at 1.
    rewrite fold_left_app. fold (convertDetailedActivityReportToText l1).
    apply convert_fold. }
  split; [exact Happ|].
  intros l parent. rewrite Happ. reflexivity.
Qed.

(** ** From the computers to the report *)

Lemma last_match_some {A} (P : A -> bool) (l : list A) (x : A) :
  last_match P l = Some x -> In x l /\ P x = true.
Proof.
  induction l as [|a l IH]; cbn [last_match]; [discriminate|].
  destruct (last_match P l) as [b|].
  - intros H. injection H as ->. destruct (IH eq_refl). split; [now right|auto].
  - destruct (P a) eqn:E; [|discriminate].
    intros H. injection H as ->. split; [now left|auto].
Qed.

Lemma last_match_found {A} (P : A -> bool) (l : list A) (x : A) :
  In x l -> P x = true -> exists y, last_match P l = Some y.
Proof.
  induction l as [|a l IH]; [intros []|]. cbn [last_match].
  intros [->|Hin] Hx.
  - destruct (last_match P l); [eauto|]. rewrite Hx. eauto.
  - destruct (IH Hin Hx) as [y ->]. eauto.
Qed.

(** X17.  The report is returned whenever the answers fit together: the
    computers were fetched by [getServers], each of them has a string for
    a hostname, every child activity runs on a computer whose id is the id
    of a fetched computer, and the parent lookup answers at least one
    activity.  Then the report generation makes its two queries and
    returns the records of the children followed by the summary of the
    first parent. *)
Theorem report_is_returned (w : World) (i : instance) (tag : string)
    (l : list server) (t : list event) (srv : servers) (tick : nat) (id : prim)
    (children : list activity) (parent : activity) (rest : list activity) :
  getComputers w i tag = Ok l ->
  getServers w i tag = (t, Ret srv) ->
  Forall (fun s => exists h, hostname s = PStr h) l ->
  getChildActivities w tick i id = Ok children ->
  Forall (fun c => exists s, In s l /\ server_key s = child_key c) children ->
  getActivities w tick i id = Ok (parent :: rest) ->
  exists body,
    generateDetailedActivityReport w i srv tick id
    = ([GetChildActivities i id; GetActivities i id],
       Ret (body ++ [summary_record parent]))
    /\ length body = length children.
Proof.
  intros Hl Hsrv Hhost Hc Hkeys Hp.
  assert (Hk : forall k,
             srv !! k = last_match (fun s => String.eqb (server_key s) k) l).
  { unfold getServers in Hsrv. rewrite Hl in Hsrv. revert Hsrv. run_step.
    intros H. injection H as _ <-. intros k. rewrite fold_insert_lookup.
    destruct (last_match _ l); [reflexivity|]. apply lookup_empty. }
  assert (Hknown : Forall (fun c => exists s, srv !! child_key c = Some s
                                              /\ exists h, hostname s = PStr h)
                          children).
  { eapply List.Forall_impl; [|exact Hkeys]. intros c (s & Hin & Hkey).
    destruct (last_match_found (fun s => String.eqb (server_key s) (child_key c))
                l s Hin) as [y Hy]; [now apply String.eqb_eq|].
    exists y. rewrite Hk. split; [assumption|].
    apply last_match_some in Hy as [Hy _].
    rewrite List.Forall_forall in Hhost. now apply Hhost. }
  destruct (forEach_child_record_known srv children) as [recs Hr].
  { eapply List.Forall_impl; [|exact Hknown]. intros c (s & -> & _). eauto. }
  pose proof (forEach_child_record_ok _ _ _ Hr) as HF.
  assert (Forall has_string_name recs) as Hnames.
  { clear -HF Hknown. induction HF as [|c r cs rs [_ Hm] _ IH];
      [constructor|].
    apply List.Forall_cons_iff in Hknown as [(s' & Hs' & h & Hh) Hknown].
    constructor; [|now apply IH].
    rewrite Hs' in Hm. exists h. congruence. }
  destruct (sort_total _ Hnames) as [body Hs].
  exists body. split.
  - rewrite generateDetailedActivityReport_run, Hc, Hr. cbn [rbind].
    now rewrite Hs, Hp.
  - destruct (sort_sorted _ _ Hs) as [Hperm _ _].
    rewrite <- (Permutation_length Hperm). symmetry.
    exact (Forall2_length _ _ _ HF).
Qed.

Lemma report_is_returned_demo :
  exists body,
    generateDetailedActivityReport demo_world DEV demo_gServers 0 (PNum 100)
    = ([GetChildActivities DEV (PNum 100); GetActivities DEV (PNum 100)],
       Ret (body ++ [summary_record (demo_parent 0)]))
    /\ length body = length (demo_children 0).
Proof.
  apply (report_is_returned demo_world DEV "ply-servers" demo_servers
           [GetComputers DEV "ply-servers"] demo_gServers 0 (PNum 100)
           (demo_children 0) (demo_parent 0) []); try reflexivity.
  - repeat constructor; eexists; reflexivity.
  - repeat constructor;
      [exists (Server (PNum 1) (PStr "b-host"))
      |exists (Server (PNum 2) (PStr "A-host"))
      |exists (Server (PNum 3) (PStr "c-host"))];
      (split; [cbn; auto | reflexivity]).
Defined.

Lemma poll_returns_generated (w : World) (i : instance) (srv : servers)
    (id : prim) (fuel tick : nat) (old : option report) (rep : report) :
  (poll w i srv id fuel tick old).2 = Ret rep ->
  exists k, (generateDetailedActivityReport w i srv k id).2 = Ret rep.
Proof.
  revert tick old. induction fuel as [|fuel IH]; intros tick old;
    rewrite poll_unfold;
    destruct (generateDetailedActivityReport w i srv tick id)
      as [evs [new|c|e|]] eqn:Hg; try discriminate;
    (destruct (summary_status new) as [st|e]; [destruct (continue st)|]);
    cbn [snd]; try discriminate;
    try (intros H; injection H as <-; exists tick; now rewrite Hg).
  apply IH.
Qed.

(** X18.  The report the loop returns is one that the report generation
    returned at some poll, so it ends with the summary record, and its text
    (what the later revision posts as the detail of the end) ends with the
    line of the summary, where the status is succeeded, failed or
    canceled. *)
Theorem final_text_ends_with_status (w : World) (i : instance) (srv : servers)
    (id : prim) (fuel : nat) (rep : report) :
  (poll w i srv id fuel 0 None).2 = Ret rep ->
  exists body parent status,
    rep = body ++ [summary_record parent]
    /\ act_activity_status parent = PStr status
    /\ (status = "succeeded" \/ status = "failed" \/ status = "canceled")
    /\ convertDetailedActivityReportToText rep
       = convertDetailedActivityReportToText body
         +:+ "** ALL (Summary) **: " +:+ status +:+ String newline EmptyString.
Proof.
  intros Hp.
  destruct (poll_returns_terminal _ _ _ _ _ _ _ _ Hp) as (st & Hs & Ht).
  destruct (poll_returns_generated _ _ _ _ _ _ _ _ Hp) as [k Hg].
  rewrite generateDetailedActivityReport_run in Hg.
  destruct (getChildActivities w k i id); [|discriminate].
  destruct (rbind _ _) as [body|]; [|discriminate].
  destruct (rbind _ _) as [parent|]; [|discriminate].
  cbn in Hg. injection Hg as <-.
  unfold summary_status in Hs. rewrite last_snoc in Hs. cbn in Hs.
  injection Hs as <-.
  apply terminal_cases in Ht.
  assert (exists status, act_activity_status parent = PStr status
                         /\ (status = "succeeded" \/ status = "failed"
                             \/ status = "canceled")) as (status & E & Hst).
  { destruct Ht as [->|[->| ->]]; eauto 6. }
  exists body, parent, status. repeat split; auto.
  unfold convertDetailedActivityReportToText at 1. rewrite fold_left_app.
  fold (convertDetailedActivityReportToText body). cbn [fold_left].
  unfold report_line. cbn [summary_record computer_name activity_status].
  rewrite E. reflexivity.
Qed.

Lemma final_text_ends_with_status_demo :
  exists body parent status,
    demo_report 1 = body ++ [summary_record parent]
    /\ act_activity_status parent = PStr status
    /\ (status = "succeeded" \/ status = "failed" \/ status = "canceled")
    /\ convertDetailedActivityReportToText (demo_report 1)
       = convertDetailedActivityReportToText body
         +:+ "** ALL (Summary) **: " +:+ status +:+ String newline EmptyString.
Proof.
  apply (final_text_ends_with_status demo_world DEV demo_gServers (PNum 100) 5).
  vm_compute. reflexivity.
Defined.

(** ** What a run queries and prints *)





Lemma poll_query_events (w : World) (i : instance) (srv : servers) (id : prim)
    (fuel tick : nat) (old : option report) (i' : instance) (id' : prim) :
  In (GetChildActivities i' id') (poll w i srv id fuel tick old).1
  \/ In (GetActivities i' id') (poll w i srv id fuel tick old).1 ->
  i' = i /\ id' = id.
Proof.
  pose proof (poll_loop_events w i srv id fuel tick old) as H.
  rewrite List.Forall_forall in H.
  intros [Hin|Hin]; apply H in Hin;
    destruct Hin as [E|[E|[E|[E|[[r E]|E]]]]]; try discriminate E;
    injection E as -> ->; auto.
Qed.

Lemma main_queries (w : World) (filename : string) (a : argv) (fuel : nat)
    (t0 : list event) (g : globals) :
  processCommandLineArgs filename a = (t0, Ret g) ->
  let queries :=
    match getComputers w (gLandscapeCmd g) (gLandscapeActivityGroup g) with
    | Ok l =>
      match executeScript w (gLandscapeCmd g) (gLandscapeActivityGroup g)
                          (gLandscapeScript g) with
      | Ok parent =>
        List.filter is_query
          (poll w (gLandscapeCmd g)
             (fold_left (fun (m : servers) srv =>
                           <[ToString (server_id srv) := srv]> m) l ∅)
             (act_id parent) fuel 0 None).1
      | Throw _ => []
      end
    | Throw _ => []
    end in
  List.filter is_query (Deploy.main w filename a fuel).1 = queries
  /\ (List.filter is_query (LandscapeDeploy.main w filename a fuel).1 = queries
      \/ List.filter is_query (LandscapeDeploy.main w filename a fuel).1 = []).
Proof.
  intros H0. pose proof (processCommandLineArgs_ret _ _ _ _ H0) as ->.
  cbn zeta. split.
  - unfold Deploy.main, getServers, log_completion. rewrite H0. run_step.
    destruct (getComputers w _ _) as [l|e]; run_step; [|reflexivity].
    destruct (executeScript w _ _ _) as [parent|e]; run_step; [|reflexivity].
    destruct (poll w _ _ _ fuel 0 None) as [tp [rep|c|e|]]; cbn [fst snd];
      cbn [app List.filter is_query]; rewrite ?List.filter_app;
      try (cbn; now rewrite ?List.app_nil_r).
    destruct (summary_status rep) as [st|e]; run_step;
      [destruct (_ || _)|]; cbn; now rewrite ?List.app_nil_r.
  - unfold LandscapeDeploy.main, LandscapeDeploy.postSlackNotification,
      getServers, log_completion.
    rewrite H0. run_step.
    destruct (getComputers w _ _) as [l|e]; run_step; [|now left].
    destruct (postSlack w (LandscapeDeploy.deploying_text g)) as [[]|e];
      run_step; [|now right].
    destruct (executeScript w _ _ _) as [parent|e]; run_step; [|now left].
    left.
    destruct (poll w _ _ _ fuel 0 None) as [tp [rep|c|e|]]; cbn [fst snd];
      cbn [app List.filter is_query]; rewrite ?List.filter_app;
      try (cbn; now rewrite ?List.app_nil_r).
    destruct (postSlack w (LandscapeDeploy.finished_text g)) as [[]|e];
      run_step; [|cbn; now rewrite ?List.app_nil_r].
    destruct (postSlack w (convertDetailedActivityReportToText rep)) as [[]|e];
      run_step; [|cbn; now rewrite ?List.app_nil_r].
    destruct (summary_status rep) as [st|e]; run_step;
      [destruct (_ || _)|]; cbn; now rewrite ?List.app_nil_r.
Qed.

(** X20.  When the arguments are accepted, every query of the child
    activities or of the parent activity in a run of either revision goes
    to the instance chosen by the arguments and asks for the activity that
    the dispatch of the script returned: no such query is made unless the
    dispatch returned, and none is made for another activity. *)
Theorem queries_follow_dispatch (w : World) (filename : string) (a : argv)
    (fuel : nat) (t0 : list event) (g : globals) (i : instance) (id : prim) :
  processCommandLineArgs filename a = (t0, Ret g) ->
  In (GetChildActivities i id) (Deploy.main w filename a fuel).1
  \/ In (GetActivities i id) (Deploy.main w filename a fuel).1
  \/ In (GetChildActivities i id) (LandscapeDeploy.main w filename a fuel).1
  \/ In (GetActivities i id) (LandscapeDeploy.main w filename a fuel).1 ->
  i = gLandscapeCmd g
  /\ exists parent,
       executeScript w (gLandscapeCmd g) (gLandscapeActivityGroup g)
                     (gLandscapeScript g) = Ok parent
       /\ id = act_id parent.
Proof.
  intros H0 Hin. destruct (main_queries w filename a fuel t0 g H0) as [Hd Hl].
  cbn zeta in Hd, Hl.
  assert (exists e, (e = GetChildActivities i id \/ e = GetActivities i id)
                    /\ (In e (List.filter is_query (Deploy.main w filename a fuel).1)
                        \/ In e (List.filter is_query
                                   (LandscapeDeploy.main w filename a fuel).1)))
    as (e & He & Hin').
  { destruct Hin as [H|[H|[H|H]]].
    - exists (GetChildActivities i id). split; [now left|].
      left. apply List.filter_In. now split.
    - exists (GetActivities i id). split; [now right|].
      left. apply List.filter_In. now split.
    - exists (GetChildActivities i id). split; [now left|].
      right. apply List.filter_In. now split.
    - exists (GetActivities i id). split; [now right|].
      right. apply List.filter_In. now split. }
  assert (In e
            match getComputers w (gLandscapeCmd g) (gLandscapeActivityGroup g) with
            | Ok l =>
              match executeScript w (gLandscapeCmd g)
                      (gLandscapeActivityGroup g) (gLandscapeScript g) with
              | Ok parent =>
                List.filter is_query
                  (poll w (gLandscapeCmd g)
                     (fold_left (fun (m : servers) srv =>
                                   <[ToString (server_id srv) := srv]> m) l ∅)
                     (act_id parent) fuel 0 None).1
              | Throw _ => []
              end
            | Throw _ => []
            end) as Hq.
  { destruct Hin' as [H|H]; [now rewrite <- Hd|].
    destruct Hl as [Hl|Hl]; rewrite Hl in H; [assumption | destruct H]. }
  destruct (getComputers w _ _) as [l|]; [|destruct Hq].
  destruct (executeScript w _ _ _) as [parent|]; [|destruct Hq].
  apply List.filter_In in Hq as [Hq _].
  assert (i = gLandscapeCmd g /\ id = act_id parent) as [-> ->].
  { eapply poll_query_events. destruct He as [-> | ->]; [left|right]; exact Hq. }
  eauto.
Qed.

Lemma queries_follow_dispatch_demo :
  DEV = gLandscapeCmd demo_globals
  /\ exists parent,
       executeScript demo_world (gLandscapeCmd demo_globals)
         (gLandscapeActivityGroup demo_globals) (gLandscapeScript demo_globals)
       = Ok parent
       /\ PNum 100 = act_id parent.
Proof.
  apply (queries_follow_dispatch demo_world "deploy.js" demo_argv 5
           [Log Info (running_message "deploy.js" demo_globals)] demo_globals
           DEV (PNum 100)).
  - reflexivity.
  - left. vm_compute. auto 20.
Defined.
